(** * Outgoing OAuth2 client-credentials middleware (outgoingoauth2cc.go)

    A shallow embedding of the plugin: the flexible-value resolver
    ([fromFlexibleValue], [fromFlexibleField]), the constructor [New] and the
    request handler [ServeHTTP], together with the parts of the Go standard
    library they depend on (strings.SplitN, encoding/base64, url.QueryEscape,
    http.StatusText, the int64 and time.Duration arithmetic).

    - Go strings are byte sequences: [string], a list of 8-bit [ascii].
    - [int64] and [time.Duration] are [Z] with the wrap-around written out
      ([wrap64]); a [float64] is a [spec_float].
    - [map[string]string] and [http.Header] are [gmap]s.
    - A function that returns [(value, error)] returns a [result]; the
      resolver runs in that error monad.
    - The file system and the environment ([OS]), the clock and the
      authorization server ([World]) are arguments.  [ServeHTTP] returns the
      plugin with its new [state] and the list of its observable actions
      ([event]): the token request, the writes to the caller, the call of
      the next handler.
    - json.Unmarshal, strconv.ParseFloat, strings.TrimSpace and the result of
      converting an out-of-range float to [int64] are section variables. *)

From Stdlib Require Import ZArith String Ascii List Lia Bool.
From Stdlib Require Import DecimalString SpecFloat.
From stdpp Require Import base gmap strings.
Import ListNotations.

Local Open Scope string_scope.
Local Open Scope Z_scope.

(** ** Errors and results *)

(** The error values the plugin and the library calls it makes can produce.
    Each constructor stands for one error site; the message text of the Go
    code is given next to it. *)
Inductive error : Type :=
| ErrInvalidFormat (fieldValue : string)
    (* "invalid flexible fieldValue format: '%s'" *)
| ErrReadFile (msg : string)
    (* the error returned by os.ReadFile *)
| ErrEnvNotFound (name : string)
    (* "environment variable '%s' not found" *)
| ErrUnknownSource (source : string)
    (* "unknown source: %s" *)
| CorruptInputError (offset : nat)
    (* base64.CorruptInputError: "illegal base64 data at input byte %d" *)
| ErrUnknownEncoding (encoding : string)
    (* "unknown encoding: %s" *)
| ErrField (fieldName fieldValue : string) (cause : error)
    (* "outgoing-oauth2-cc failed to parse field '%s=%s': %v" *)
| ErrMissingURL
    (* "outgoing-oauth2-cc missing value for url" *)
| PanicIndexOutOfRange.
    (* run-time panic of a slice index expression *)

Inductive result (A : Type) : Type :=
| Ok (a : A)
| Err (e : error).
Arguments Ok {A} a.
Arguments Err {A} e.

Definition is_err {A} (r : result A) : bool :=
  match r with Ok _ => false | Err _ => true end.

(** ** package strings *)

Module strings.

(** [strings.HasPrefix s prefix] *)
Fixpoint HasPrefix (s p : string) {struct p} : bool :=
  match p with
  | EmptyString => true
  | String a p' =>
      match s with
      | EmptyString => false
      | String b s' => Ascii.eqb a b && HasPrefix s' p'
      end
  end.

Fixpoint drop (n : nat) (s : string) : string :=
  match n, s with
  | O, _ => s
  | S n', String _ s' => drop n' s'
  | S _, EmptyString => EmptyString
  end.

Fixpoint take (n : nat) (s : string) : string :=
  match n, s with
  | S n', String c s' => String c (take n' s')
  | _, _ => EmptyString
  end.

(** [strings.Index s sep]: the byte offset of the first occurrence of [sep]
    in [s]; Go's -1 is [None]. *)
Fixpoint Index (s sep : string) : option nat :=
  if HasPrefix s sep then Some O
  else match s with
       | EmptyString => None
       | String _ s' => option_map S (Index s' sep)
       end.

(** The loop of [genSplit]: at most [k] cuts, the rest of the string is the
    last element. *)
Fixpoint split_loop (k : nat) (s sep : string) : list string :=
  match k with
  | O => [s]
  | S k' =>
      match Index s sep with
      | None => [s]
      | Some m => take m s :: split_loop k' (drop (m + String.length sep) s) sep
      end
  end.

(** [strings.SplitN s sep n] for a non-empty separator and [n >= 0], the
    way [fromFlexibleValue] calls it ([genSplit] with [sepSave = 0]). *)
Definition SplitN (s sep : string) (n : nat) : list string :=
  match n with
  | O => []
  | S _ =>
      let n := Nat.min n (S (String.length s)) in
      split_loop (Nat.pred n) s sep
  end.

End strings.

(** ** package encoding/base64 *)

Module base64.

Record Encoding : Type := {
  encode : string;            (* the 64-character alphabet *)
  padChar : option ascii      (* [None] is NoPadding *)
}.

Definition encodeStd : string :=
  "ABCDEFGHIJKLMNOPQRSTUVWXYZabcdefghijklmnopqrstuvwxyz0123456789+/".
Definition encodeURL : string :=
  "ABCDEFGHIJKLMNOPQRSTUVWXYZabcdefghijklmnopqrstuvwxyz0123456789-_".

Definition StdPadding : ascii := "="%char.

Definition StdEncoding : Encoding :=
  {| encode := encodeStd; padChar := Some StdPadding |}.
Definition URLEncoding : Encoding :=
  {| encode := encodeURL; padChar := Some StdPadding |}.
Definition RawURLEncoding : Encoding :=
  {| encode := encodeURL; padChar := None |}.

Definition byte_val (c : ascii) : Z := Z.of_N (N_of_ascii c).
Definition byte_of (z : Z) : ascii := ascii_of_N (Z.to_N (Z.land z 255)).

(** [enc.encode[i]] *)
Definition encode_at (enc : Encoding) (i : Z) : ascii :=
  match String.get (Z.to_nat i) (encode enc) with
  | Some c => c
  | None => zero
  end.

Fixpoint find_index (c : ascii) (alphabet : string) (i : Z) : option Z :=
  match alphabet with
  | EmptyString => None
  | String a rest => if Ascii.eqb a c then Some i else find_index c rest (i + 1)
  end.

(** [enc.decodeMap[c]]: the 6-bit value of [c], Go's 0xff is [None]. *)
Definition decodeMap (enc : Encoding) (c : ascii) : option Z :=
  find_index c (encode enc) 0.

Definition is_newline (c : ascii) : bool :=
  Ascii.eqb c "010"%char || Ascii.eqb c "013"%char.

Definition is_pad (enc : Encoding) (c : ascii) : bool :=
  match padChar enc with
  | Some p => Ascii.eqb c p
  | None => false
  end.

(** [for si < len(src) && (src[si] == '\n' || src[si] == '\r') { si++ }] *)
Fixpoint skip_newlines (src : list ascii) (si : nat) : list ascii * nat :=
  match src with
  | c :: rest => if is_newline c then skip_newlines rest (S si) else (src, si)
  | [] => ([], si)
  end.

(** The tail of [decodeQuantum]: [dlen] six-bit values (at most four) are
    packed into 24 bits and the first [dlen - 1] bytes are written. *)
Definition quantum_bytes (dbuf : list Z) : list ascii :=
  let d i := nth i dbuf 0 in
  let val := Z.lor (Z.lor (Z.lor (Z.shiftl (d 0%nat) 18) (Z.shiftl (d 1%nat) 12))
                          (Z.shiftl (d 2%nat) 6)) (d 3%nat) in
  let b0 := byte_of (Z.shiftr val 16) in
  let b1 := byte_of (Z.shiftr val 8) in
  let b2 := byte_of (Z.shiftr val 0) in
  match length dbuf with
  | 4%nat => [b0; b1; b2]
  | 3%nat => [b0; b1]
  | 2%nat => [b0]
  | _ => []
  end.

(** What [decodeQuantum] does once it has read the padding character at
    offset [si] with [dbuf] holding the [j] values read so far; [rest] is
    the input after that character. *)
Definition decode_padding (enc : Encoding) (dbuf : list Z) (rest : list ascii)
    (si : nat) (out : list ascii) : result (list ascii) :=
  let finish (rest : list ascii) (si : nat) :=
    let '(rest', si') := skip_newlines rest si in
    match rest' with
    | [] => Ok (out ++ quantum_bytes dbuf)%list
    | _ :: _ => Err (CorruptInputError si')          (* trailing garbage *)
    end in
  match length dbuf with
  | 0%nat | 1%nat => Err (CorruptInputError si)      (* incorrect padding *)
  | 2%nat =>
      let '(rest', si') := skip_newlines rest (S si) in
      match rest' with
      | [] => Err (CorruptInputError si')            (* not enough padding *)
      | c :: rest'' =>
          if is_pad enc c then finish rest'' (S si')
          else Err (CorruptInputError (si' - 1))     (* incorrect padding *)
      end
  | _ => finish rest (S si)
  end.

(** [Encoding.Decode]: [decodeQuantum] repeated until the input is used up.
    [si] is the offset of the head of [src] in the whole input, [dbuf] the
    values of the quantum being read and [out] the bytes decoded so far. *)
Fixpoint decode_loop (enc : Encoding) (src : list ascii) (si : nat)
    (dbuf : list Z) (out : list ascii) : result (list ascii) :=
  match src with
  | [] =>
      match dbuf with
      | [] => Ok out
      | [_] => Err (CorruptInputError (si - 1))
      | _ =>
          match padChar enc with
          | Some _ => Err (CorruptInputError (si - length dbuf))
          | None => Ok (out ++ quantum_bytes dbuf)%list
          end
      end
  | c :: rest =>
      match decodeMap enc c with
      | Some v =>
          let dbuf' := (dbuf ++ [v])%list in
          if (length dbuf' =? 4)%nat
          then decode_loop enc rest (S si) [] (out ++ quantum_bytes dbuf')%list
          else decode_loop enc rest (S si) dbuf' out
      | None =>
          if is_newline c then decode_loop enc rest (S si) dbuf out
          else if is_pad enc c then decode_padding enc dbuf rest si out
          else Err (CorruptInputError si)
      end
  end.

(** [Encoding.DecodeString] *)
Definition DecodeString (enc : Encoding) (s : string) : result string :=
  match decode_loop enc (list_ascii_of_string s) 0 [] [] with
  | Ok bytes => Ok (string_of_list_ascii bytes)
  | Err e => Err e
  end.

(** [Encoding.Encode], three input bytes at a time. *)
Fixpoint encode_loop (enc : Encoding) (src : list ascii) : list ascii :=
  let pad := match padChar enc with Some p => [p] | None => [] end in
  match src with
  | [] => []
  | [b0] =>
      let val := Z.shiftl (byte_val b0) 16 in
      ([encode_at enc (Z.land (Z.shiftr val 18) 63);
       encode_at enc (Z.land (Z.shiftr val 12) 63)] ++ pad ++ pad)%list
  | [b0; b1] =>
      let val := Z.lor (Z.shiftl (byte_val b0) 16) (Z.shiftl (byte_val b1) 8) in
      ([encode_at enc (Z.land (Z.shiftr val 18) 63);
       encode_at enc (Z.land (Z.shiftr val 12) 63);
       encode_at enc (Z.land (Z.shiftr val 6) 63)] ++ pad)%list
  | b0 :: b1 :: b2 :: rest =>
      let val := Z.lor (Z.lor (Z.shiftl (byte_val b0) 16) (Z.shiftl (byte_val b1) 8))
                       (byte_val b2) in
      encode_at enc (Z.land (Z.shiftr val 18) 63)
      :: encode_at enc (Z.land (Z.shiftr val 12) 63)
      :: encode_at enc (Z.land (Z.shiftr val 6) 63)
      :: encode_at enc (Z.land val 63)
      :: encode_loop enc rest
  end.

(** [Encoding.EncodeToString] *)
Definition EncodeToString (enc : Encoding) (src : string) : string :=
  string_of_list_ascii (encode_loop enc (list_ascii_of_string src)).

End base64.

(** ** package net/url *)

Module url.

Definition upperhex : string := "0123456789ABCDEF".

Definition hex_at (i : Z) : ascii :=
  match String.get (Z.to_nat i) upperhex with
  | Some c => c
  | None => zero
  end.

Definition in_range (lo hi c : ascii) : bool :=
  (N_of_ascii lo <=? N_of_ascii c)%N && (N_of_ascii c <=? N_of_ascii hi)%N.

(** [shouldEscape c encodeQueryComponent]: only the unreserved characters
    (letters, digits and [-], [_], [.], [~]) are left alone. *)
Definition shouldEscape (c : ascii) : bool :=
  if in_range "a" "z" c || in_range "A" "Z" c || in_range "0" "9" c then false
  else if Ascii.eqb c "-" || Ascii.eqb c "_" || Ascii.eqb c "." || Ascii.eqb c "~"
  then false
  else true.

(** [escape s encodeQueryComponent] *)
Fixpoint escape (s : string) : string :=
  match s with
  | EmptyString => EmptyString
  | String c rest =>
      if shouldEscape c then
        if Ascii.eqb c " " then String "+" (escape rest)
        else
          let b := base64.byte_val c in
          String "%" (String (hex_at (Z.shiftr b 4))
                        (String (hex_at (Z.land b 15)) (escape rest)))
      else String c (escape rest)
  end.

Definition QueryEscape (s : string) : string := escape s.

End url.

(** ** The operating system, as the resolver sees it *)

(** The file system and the process environment at the time [New] runs.
    [ReadFile] is os.ReadFile (an error or the file's bytes), [LookupEnv] is
    os.LookupEnv ([None] when the variable is unset; a variable that is set
    to the empty string is [Some ""]). *)
Record OS : Type := {
  ReadFile : string -> string + string;     (* the error's text, or the bytes *)
  LookupEnv : string -> option string
}.

#[global] Instance result_bind : MBind result :=
  fun A B (f : A -> result B) (r : result A) =>
    match r with
    | Ok a => f a
    | Err e => Err e
    end.

(** ** Configuration and plugin state *)

Record Header : Type := {
  Name : string;
  Value : string
}.

Record AuthGrantRequestConfig : Type := {
  URL : string;
  User : string;
  Pass : string;
  Scope : string;
  Headers : list Header;
  ExpiresMarginSeconds : Z;
  BasicAuthSkipEncoding : bool
}.

Record Config : Type := {
  AuthGrantRequest : AuthGrantRequestConfig;
  Trace : bool
}.

(** A [time.Time] without monotonic clock reading: the nanoseconds elapsed
    since the zero time (January 1, year 1, 00:00:00 UTC), so that
    [time.Time{}] is [0]. *)
Definition Time : Type := Z.

Record state : Type := {
  token : string;
  expires : Time
}.

Record OutgoingOAuth2CC : Type := {
  name : string;
  trace : bool;
  authGrantUrl : string;
  authGrantScope : string;
  authGrantHeaders : gmap string string;
  authGrantExpiresMarginSeconds : Z;
  st : state                                     (* the field [state] *)
}.

(** CreateConfig: the zero value of [Config]. *)
Definition CreateConfig : Config :=
  {| AuthGrantRequest :=
       {| URL := ""; User := ""; Pass := ""; Scope := ""; Headers := [];
          ExpiresMarginSeconds := 0; BasicAuthSkipEncoding := false |};
     Trace := false |}.

Definition queryEncode (s : string) (skip : bool) : string :=
  if skip then s else url.QueryEscape s.

Definition maxInt (a b : Z) : Z :=
  if a >? b then a else b.

(** ** Flexible values *)

Section FlexibleValues.

(** [strings.TrimSpace], which no property below depends on. *)
Variable TrimSpace : string -> string.

Variable os : OS.

(** The [switch source] of [fromFlexibleValue]. *)
Definition resolve_source (source value : string) : result string :=
  if String.eqb source "file" then
    match ReadFile os value with
    | inl err => Err (ErrReadFile err)
    | inr valueBytes => Ok (TrimSpace valueBytes)
    end
  else if String.eqb source "env" then
    match LookupEnv os value with
    | None => Err (ErrEnvNotFound value)
    | Some envValue => Ok envValue
    end
  else if String.eqb source "direct" then Ok value
  else Err (ErrUnknownSource source).

(** The three decoding attempts of the [isBase64 == 1] branch; [err] is
    overwritten by each attempt that runs. *)
Definition decode_variants (value : string) : result string :=
  let r := base64.DecodeString base64.StdEncoding value in
  let r := if is_err r then base64.DecodeString base64.URLEncoding value else r in
  let r := if is_err r then base64.DecodeString base64.RawURLEncoding value else r in
  r.

Definition fromFlexibleValue (fieldValue : string) : result string :=
  if negb (strings.HasPrefix fieldValue "~") then Ok fieldValue
  else
    let isBase64 : nat :=
      if strings.HasPrefix fieldValue "~base64~" then 1%nat else 0%nat in
    let parts := strings.SplitN fieldValue "~" (1 + 1 + 1 + isBase64) in
    if (length parts <? 1 + 1 + 1 + isBase64)%nat
    then Err (ErrInvalidFormat fieldValue)
    else
      match parts !! isBase64, parts !! (isBase64 + 1)%nat,
            parts !! (1 + 1 + isBase64)%nat with
      | Some encoding, Some source, Some value =>
          value ← resolve_source source value;
          if (isBase64 =? 1)%nat then
            if String.eqb encoding "base64" then decode_variants value
            else Err (ErrUnknownEncoding encoding)
          else Ok value
      | _, _, _ => Err PanicIndexOutOfRange
      end.

Definition fromFlexibleField (fieldName fieldValue : string) : result string :=
  match fromFlexibleValue fieldValue with
  | Err err => Err (ErrField fieldName fieldValue err)
  | Ok r => Ok r
  end.

(** The loop of [New] over [config.AuthGrantRequest.Headers]. *)
Fixpoint resolve_headers (headers : list Header)
    (authGrantHeaders : gmap string string) : result (gmap string string) :=
  match headers with
  | [] => Ok authGrantHeaders
  | header :: rest =>
      hdrName ← fromFlexibleField "header.name" (Name header);
      hdrValue ← fromFlexibleField "header.value" (Value header);
      resolve_headers rest (<[hdrName := hdrValue]> authGrantHeaders)
  end.

(** [New].  The wrapped handler [next] is not part of the record: calling
    it is an event of [ServeHTTP].  [config.AuthGrantRequest.
    ExpiresMarginSeconds] is a Go [int]; its conversion to [int64] keeps
    the value. *)
Definition New (config : Config) (name : string) : result OutgoingOAuth2CC :=
  let agr := AuthGrantRequest config in
  authGrantHeaders ← resolve_headers (Headers agr) ∅;
  user ← fromFlexibleField "user" (User agr);
  authGrantHeaders ←
    (if negb (String.eqb user "") then
       pass ← fromFlexibleField "pass" (Pass agr);
       let basicAuthSkipEncoding := BasicAuthSkipEncoding agr in
       let basicAuth := queryEncode user basicAuthSkipEncoding ++ ":"
                        ++ queryEncode pass basicAuthSkipEncoding in
       Ok (<["Authorization" :=
               "Basic " ++ base64.EncodeToString base64.StdEncoding basicAuth]>
             authGrantHeaders)
     else Ok authGrantHeaders);
  grantUrl ← fromFlexibleField "url" (URL agr);
  if String.eqb grantUrl "" then Err ErrMissingURL
  else
    Ok {| name := name;
          trace := Trace config;
          authGrantUrl := grantUrl;
          authGrantScope := Scope agr;
          authGrantHeaders := authGrantHeaders;
          authGrantExpiresMarginSeconds := maxInt 1 (ExpiresMarginSeconds agr);
          st := {| token := ""; expires := 0 |} |}.

End FlexibleValues.

(** ** Integers, durations and floats *)

Definition min_int64 : Z := - 2 ^ 63.
Definition max_int64 : Z := 2 ^ 63 - 1.

(** Two's-complement wrap-around of [int64] arithmetic. *)
Definition wrap64 (z : Z) : Z := (z + 2 ^ 63) mod 2 ^ 64 - 2 ^ 63.

Definition in_int64 (z : Z) : bool := (min_int64 <=? z) && (z <=? max_int64).

(** [time.Second], a [time.Duration] (an [int64] count of nanoseconds). *)
Definition Second : Z := 1000000000.

(** [t.Truncate(d)] for [d > 0]: [t] rounded down to a multiple of [d]
    since the zero time. *)
Definition Truncate (t : Time) (d : Z) : Time :=
  if d <=? 0 then t else t - t mod d.

(** [t.Add(d)].  The seconds of a [time.Time] are an [int64] and [Add]
    saturates there; instants that far from the zero time are outside the
    model. *)
Definition Add (t : Time) (d : Z) : Time := t + d.

(** [t.After(u)] *)
Definition After (t u : Time) : bool := t >? u.

(** A [float64] is an IEEE 754 binary64 value, given by [spec_float]: a
    finite one is [(-1)^s * m * 2^e].  The integer part of a finite value,
    rounding toward zero: *)
Definition float_trunc (f : spec_float) : option Z :=
  match f with
  | S754_zero _ => Some 0
  | S754_finite s m e =>
      let a := Z.shiftl (Z.pos m) e in
      Some (if s then - a else a)
  | S754_infinity _ | S754_nan => None
  end.

(** [strconv.Itoa] / the verb [%d]. *)
Definition itoa (z : Z) : string := NilEmpty.string_of_int (Z.to_int z).

Definition nl : string := String "010"%char EmptyString.

(** ** package net/http *)

Module http.

(** [http.Header]: canonical header name to the list of its values. *)
Abbreviation Header := (gmap string (list string)).

(** [h.Set(key, value)] for a key that is already in canonical form (the
    plugin's only call on the forwarded request uses ["Authorization"]):
    the values of the key are replaced by the single [value]. *)
Definition Header_Set (h : Header) (key value : string) : Header :=
  <[key := [value]]> h.

(** [h.Get(key)] for a canonical key: the first value, or [""] . *)
Definition Header_Get (h : Header) (key : string) : string :=
  match h !! key with
  | Some (v :: _) => v
  | _ => EmptyString
  end.

(** The request handed to the middleware. *)
Record Request : Type := {
  Method : string;
  RequestURI : string;
  Header_of : Header;                          (* the field [Header] *)
  Body_of : string
}.

(** What the plugin reads of the authorization server's response:
    [agRes.StatusCode] and the bytes [io.ReadAll(agRes.Body)] returned. *)
Record Response : Type := {
  StatusCode : Z;
  Body : string
}.

Definition StatusInternalServerError : Z := 500.

(** [http.StatusText]: the reason phrase, [""] for an unknown code. *)
Definition StatusText (code : Z) : string :=
  match code with
  | 100 => "Continue"
  | 101 => "Switching Protocols"
  | 102 => "Processing"
  | 103 => "Early Hints"
  | 200 => "OK"
  | 201 => "Created"
  | 202 => "Accepted"
  | 203 => "Non-Authoritative Information"
  | 204 => "No Content"
  | 205 => "Reset Content"
  | 206 => "Partial Content"
  | 207 => "Multi-Status"
  | 208 => "Already Reported"
  | 226 => "IM Used"
  | 300 => "Multiple Choices"
  | 301 => "Moved Permanently"
  | 302 => "Found"
  | 303 => "See Other"
  | 304 => "Not Modified"
  | 305 => "Use Proxy"
  | 307 => "Temporary Redirect"
  | 308 => "Permanent Redirect"
  | 400 => "Bad Request"
  | 401 => "Unauthorized"
  | 402 => "Payment Required"
  | 403 => "Forbidden"
  | 404 => "Not Found"
  | 405 => "Method Not Allowed"
  | 406 => "Not Acceptable"
  | 407 => "Proxy Authentication Required"
  | 408 => "Request Timeout"
  | 409 => "Conflict"
  | 410 => "Gone"
  | 411 => "Length Required"
  | 412 => "Precondition Failed"
  | 413 => "Request Entity Too Large"
  | 414 => "Request URI Too Long"
  | 415 => "Unsupported Media Type"
  | 416 => "Requested Range Not Satisfiable"
  | 417 => "Expectation Failed"
  | 418 => "I'm a teapot"
  | 421 => "Misdirected Request"
  | 422 => "Unprocessable Entity"
  | 423 => "Locked"
  | 424 => "Failed Dependency"
  | 425 => "Too Early"
  | 426 => "Upgrade Required"
  | 428 => "Precondition Required"
  | 429 => "Too Many Requests"
  | 431 => "Request Header Fields Too Large"
  | 451 => "Unavailable For Legal Reasons"
  | 500 => "Internal Server Error"
  | 501 => "Not Implemented"
  | 502 => "Bad Gateway"
  | 503 => "Service Unavailable"
  | 504 => "Gateway Timeout"
  | 505 => "HTTP Version Not Supported"
  | 506 => "Variant Also Negotiates"
  | 507 => "Insufficient Storage"
  | 508 => "Loop Detected"
  | 510 => "Not Extended"
  | 511 => "Network Authentication Required"
  | _ => EmptyString
  end.

End http.

(** ** package encoding/json *)

(** The values [json.Unmarshal] stores in an [interface{}]: nil, bool,
    float64, string, []interface{} and map[string]interface{}. *)
Local Unset Elimination Schemes.
Inductive JSON : Type :=
| JNull
| JBool (b : bool)
| JNumber (f : spec_float)
| JString (s : string)
| JArray (l : list JSON)
| JObject (m : list (string * JSON)).
Local Set Elimination Schemes.

(** [v, ok := x.(string)] on the result of a map index expression; a missing
    key gives the nil interface and the zero value [""] . *)
Definition assert_string (x : option JSON) : string * bool :=
  match x with
  | Some (JString s) => (s, true)
  | _ => (EmptyString, false)
  end.

(** [v, ok := x.(float64)]; the zero value is [+0]. *)
Definition assert_float64 (x : option JSON) : spec_float * bool :=
  match x with
  | Some (JNumber f) => (f, true)
  | _ => (S754_zero false, false)
  end.

(** ** The request handler *)

(** The token request as [ServeHTTP] builds it: POST to [gr_url] with the
    form-encoded [gr_body]; the headers are the two defaults, then every
    entry of [gr_headers] applied with [Header.Set] in map iteration
    order. *)
Record GrantRequest : Type := {
  gr_url : string;
  gr_body : string;
  gr_defaults : list (string * string);
  gr_headers : gmap string string
}.

(** What the surroundings answer during one call of [ServeHTTP]. *)
Record World : Type := {
  now_check : Time;       (* time.Now() of the expiry test *)
  now_grant : Time;       (* time.Now() when the new expiry is stored *)
  NewRequest : string -> option string;
                          (* http.NewRequest("POST", url, _): its error *)
  Do : GrantRequest -> string + http.Response;
                          (* http.DefaultClient.Do: its error, or the response *)
  rw_Write_fails : bool   (* whether rw.Write returns an error *)
}.

(** The observable actions of one call, in program order. *)
Inductive event : Type :=
| EvDo (agReq : GrantRequest)          (* the token request is sent *)
| EvStdout (s : string)
| EvStderr (s : string)
| EvWriteHeader (status : Z)           (* rw.WriteHeader *)
| EvWrite (body : string)              (* rw.Write *)
| EvNext (req : http.Request).         (* c.next.ServeHTTP(rw, req) *)

Definition serveError (w : World) (msg : string) (status : Z) : list event :=
  [EvStderr ("outgoing-oauth2-cc: error: " ++ msg ++ nl);
   EvWriteHeader status;
   EvWrite (http.StatusText status ++ ": " ++ msg)]
  ++ (if rw_Write_fails w then [EvStdout msg] else [])%list.

Definition serveInternalError (w : World) (msg : string) : list event :=
  serveError w msg http.StatusInternalServerError.

Section Handler.

(** [json.Unmarshal(body, &responseData)] into a nil
    [map[string]interface{}]: the error, or the resulting map. *)
Variable Unmarshal : string -> string + gmap string JSON.

(** [strconv.ParseFloat(s, 64)]: the value and the error. *)
Variable ParseFloat : string -> spec_float * option string.

(** [int64(f)] where [f] has no integer part in the [int64] range (NaN,
    an infinity, a value too large): Go leaves the result to the
    implementation. *)
Variable int64_indefinite : spec_float -> Z.

(** The conversion [int64(f)]. *)
Definition int64_of_float (f : spec_float) : Z :=
  match float_trunc f with
  | Some z => if in_int64 z then z else int64_indefinite f
  | None => int64_indefinite f
  end.

(** [data.Encode()] for the form of the token request. *)
Definition grant_form (scope : string) : string :=
  "grant_type=client_credentials"
  ++ (if negb (String.eqb scope "") then "&scope=" ++ url.QueryEscape scope
      else "").

(** [req.Header.Set("Authorization", value)] *)
Definition set_authorization (req : http.Request) (value : string)
    : http.Request :=
  {| http.Method := http.Method req;
     http.RequestURI := http.RequestURI req;
     http.Header_of := http.Header_Set (http.Header_of req) "Authorization" value;
     http.Body_of := http.Body_of req |}.

(** The last two statements of [ServeHTTP]. *)
Definition forward (c : OutgoingOAuth2CC) (req : http.Request) : list event :=
  [EvNext (set_authorization req ("Bearer " ++ token (st c)))].

(** The token request [agReq]. *)
Definition grant_request (c : OutgoingOAuth2CC) : GrantRequest :=
  {| gr_url := authGrantUrl c;
     gr_body := grant_form (authGrantScope c);
     gr_defaults := [("Content-Type", "application/x-www-form-urlencoded");
                     ("Accept", "*/*")];
     gr_headers := authGrantHeaders c |}.

(** The line written to standard output when [c.trace] is set. *)
Definition trace_response (c : OutgoingOAuth2CC) (body : string) : list event :=
  if trace c then
    [EvStdout ("outgoing-oauth2-cc auth-grant response: " ++ body ++ nl)]
  else [].

Definition set_state (c : OutgoingOAuth2CC) (s : state) : OutgoingOAuth2CC :=
  {| name := name c; trace := trace c; authGrantUrl := authGrantUrl c;
     authGrantScope := authGrantScope c; authGrantHeaders := authGrantHeaders c;
     authGrantExpiresMarginSeconds := authGrantExpiresMarginSeconds c;
     st := s |}.

(** The part of [ServeHTTP] that reads a 200 response: the plugin after
    it, and the events. *)
Definition read_grant (c : OutgoingOAuth2CC) (w : World) (body : string)
    : option OutgoingOAuth2CC * list event :=
  match Unmarshal body with
  | inl err => (None, serveInternalError w ("unmarshall: " ++ err))
  | inr responseData =>
      let '(accessToken, ok) := assert_string (responseData !! "access_token") in
      if negb ok then (None, serveInternalError w "access_token not found")
      else
        let '(expiresInStr, okStr) := assert_string (responseData !! "expires_in") in
        let '(expiresInFlt, okFlt) := assert_float64 (responseData !! "expires_in") in
        let '(expiresInFlt, err) :=
          if negb okFlt && okStr then ParseFloat expiresInStr
          else (expiresInFlt, None) in
        if negb okFlt && bool_decide (err ≠ None)
        then (None, serveInternalError w "expires_in not found or not parseable")
        else
          let expiresIn := int64_of_float expiresInFlt in
          let expiresInAdjusted :=
            maxInt 1 (wrap64 (expiresIn - authGrantExpiresMarginSeconds c)) in
          let c' :=
            set_state c
              {| token := accessToken;
                 expires := Add (Truncate (now_grant w) Second)
                                (wrap64 (expiresInAdjusted * Second)) |} in
          (Some c',
           if trace c then
             [EvStdout ("outgoing-oauth2-cc: token=" ++ accessToken
                        ++ "  expires=" ++ itoa expiresIn
                        ++ "  adjusted=" ++ itoa expiresInAdjusted ++ nl)]
           else [])
  end.

Definition ServeHTTP (c : OutgoingOAuth2CC) (w : World) (req : http.Request)
    : OutgoingOAuth2CC * list event :=
  if After (now_check w) (expires (st c)) then
    match NewRequest w (authGrantUrl c) with
    | Some err => (c, serveInternalError w ("new-request: " ++ err))
    | None =>
        let agReq := grant_request c in
        match Do w agReq with
        | inl err =>
            (c, EvDo agReq :: serveInternalError w ("do-request: " ++ err))
        | inr agRes =>
            let tr := trace_response c (http.Body agRes) in
            if negb (http.StatusCode agRes =? 200) then
              (c, EvDo agReq :: tr
                  ++ serveError w ("status-code: " ++ itoa (http.StatusCode agRes))
                       (http.StatusCode agRes))%list
            else
              match read_grant c w (http.Body agRes) with
              | (None, evs) => (c, EvDo agReq :: tr ++ evs)%list
              | (Some c', evs) => (c', EvDo agReq :: tr ++ evs ++ forward c' req)%list
              end
        end
    end
  else (c, forward c req).

End Handler.


(** ** Notions the properties are stated with *)

(** The first successful attempt of a non-empty sequence of attempts, and
    the error of the last one when none succeeds. *)
Fixpoint first_success (r : result string) (rest : list (result string))
    : result string :=
  match r with
  | Ok d => Ok d
  | Err e =>
      match rest with
      | [] => Err e
      | r' :: rest' => first_success r' rest'
      end
  end.

(** The floor of a finite float. *)
Definition float_floor (f : spec_float) : option Z :=
  match f with
  | S754_zero _ => Some 0
  | S754_finite s m e => Some (Z.shiftl (if s then Z.neg m else Z.pos m) e)
  | S754_infinity _ | S754_nan => None
  end.

(** The configuration with another password. *)
Definition with_Pass (config : Config) (pass : string) : Config :=
  let agr := AuthGrantRequest config in
  {| AuthGrantRequest :=
       {| URL := URL agr; User := User agr; Pass := pass; Scope := Scope agr;
          Headers := Headers agr;
          ExpiresMarginSeconds := ExpiresMarginSeconds agr;
          BasicAuthSkipEncoding := BasicAuthSkipEncoding agr |};
     Trace := Trace config |}.

(** form-urlencoding of the credentials, unless it is skipped. *)
Definition form_encode (skip : bool) (s : string) : string :=
  if skip then s else url.QueryEscape s.

(** A header of the configuration one of whose two flexible values does not
    resolve. *)
Definition header_fails (TrimSpace : string -> string) (os : OS) (h : Header)
    : bool :=
  is_err (fromFlexibleValue TrimSpace os (Name h))
  || is_err (fromFlexibleValue TrimSpace os (Value h)).

(** An environment with no variables and no readable files. *)
Definition empty_os : OS :=
  {| ReadFile := fun _ => inl "no such file or directory";
     LookupEnv := fun _ => None |}.

Definition config_with (url user pass : string) (margin : Z) (skip : bool)
    : Config :=
  {| AuthGrantRequest :=
       {| URL := url; User := user; Pass := pass; Scope := EmptyString;
          Headers := []; ExpiresMarginSeconds := margin;
          BasicAuthSkipEncoding := skip |};
     Trace := false |}.

(** The token requests sent, the requests handed to the next handler, and
    the status codes and bodies written to the caller, in a run. *)
Fixpoint grants (evs : list event) : nat :=
  match evs with
  | [] => O
  | EvDo _ :: rest => S (grants rest)
  | _ :: rest => grants rest
  end.

Fixpoint forwarded (evs : list event) : list http.Request :=
  match evs with
  | [] => []
  | EvNext req :: rest => req :: forwarded rest
  | _ :: rest => forwarded rest
  end.

Fixpoint statuses (evs : list event) : list Z :=
  match evs with
  | [] => []
  | EvWriteHeader status :: rest => status :: statuses rest
  | _ :: rest => statuses rest
  end.

Fixpoint bodies (evs : list event) : list string :=
  match evs with
  | [] => []
  | EvWrite body :: rest => body :: bodies rest
  | _ :: rest => bodies rest
  end.

(** Sample surroundings: a decoder that knows one body, a number parser
    that knows one text, the conversion of amd64 for values out of range,
    and an authorization server with one answer. *)
Definition unmarshal_sample (body : string) (responseData : gmap string JSON)
    : string -> string + gmap string JSON :=
  fun b => if String.eqb b body then inr responseData
           else inl "invalid character".

Definition parse_sample (text : string) (f : spec_float)
    : string -> spec_float * option string :=
  fun s => if String.eqb s text then (f, None)
           else (S754_zero false, Some "invalid syntax").

Definition indefinite_amd64 : spec_float -> Z := fun _ => min_int64.

Definition world_sample (now : Time) (agRes : http.Response) : World :=
  {| now_check := now; now_grant := now;
     NewRequest := fun _ => None;
     Do := fun _ => inr agRes;
     rw_Write_fails := false |}.

Definition request_sample : http.Request :=
  {| http.Method := "GET"; http.RequestURI := "/data";
     http.Header_of := {[ "Authorization" := ["Basic Y2FsbGVy"] ]};
     http.Body_of := EmptyString |}.

(** A plugin built by [New] with the given margin, before its first
    request. *)
Definition plugin_sample (margin : Z) : OutgoingOAuth2CC :=
  {| name := "test"; trace := false;
     authGrantUrl := "http://as.example/token"; authGrantScope := EmptyString;
     authGrantHeaders := ∅;
     authGrantExpiresMarginSeconds := maxInt 1 margin;
     st := {| token := EmptyString; expires := 0 |} |}.

Definition dq : string := String "034"%char EmptyString.

(** [{"access_token":"t0"}] and [{"access_token":"t0","expires_in":...}] *)
Definition body_token_only : string :=
  "{" ++ dq ++ "access_token" ++ dq ++ ":" ++ dq ++ "t0" ++ dq ++ "}".
Definition body_token_expiry (expires_in : string) : string :=
  "{" ++ dq ++ "access_token" ++ dq ++ ":" ++ dq ++ "t0" ++ dq ++ ","
  ++ dq ++ "expires_in" ++ dq ++ ":" ++ expires_in ++ "}".

(** The binary64 values 3600 and 10^10. *)
Definition float_3600 : spec_float := S754_finite false 7916483719987200 (-41).
Definition float_1e10 : spec_float := S754_finite false 5242880000000000 (-19).

(** 2024-04-01 00:00:00.25 UTC, in nanoseconds since the zero time. *)
Definition now_sample : Time := 63847526400250000000.

(** ** Further notions and sample inputs *)

(** The occurrences of a byte in a string. *)
Fixpoint count_char (x : ascii) (s : string) : nat :=
  match s with
  | EmptyString => O
  | String c rest => ((if Ascii.eqb c x then 1 else 0) + count_char x rest)%nat
  end.

(** The errors [fromFlexibleValue] returns for a value: the format error
    with the value, a file or environment error, the unknown source, or
    (only behind the [~base64~] prefix) illegal base64 data. *)
Definition resolver_error (fieldValue : string) (e : error) : Prop :=
  e = ErrInvalidFormat fieldValue
  \/ (exists msg, e = ErrReadFile msg)
  \/ (exists name, e = ErrEnvNotFound name)
  \/ (exists source, e = ErrUnknownSource source)
  \/ (exists offset, e = CorruptInputError offset
                     /\ strings.HasPrefix fieldValue "~base64~" = true).

(** The lines written to standard output and to standard error in a run. *)
Fixpoint stdout (evs : list event) : list string :=
  match evs with
  | [] => []
  | EvStdout s :: rest => s :: stdout rest
  | _ :: rest => stdout rest
  end.

Fixpoint stderr (evs : list event) : list string :=
  match evs with
  | [] => []
  | EvStderr s :: rest => s :: stderr rest
  | _ :: rest => stderr rest
  end.

(** The flexible values of a configuration, with the name [New] reports
    them under. *)
Definition config_field (config : Config) (fieldName fieldValue : string) : Prop :=
  let agr := AuthGrantRequest config in
  (fieldName = "header.name" /\ exists h, In h (Headers agr) /\ fieldValue = Name h)
  \/ (fieldName = "header.value"
      /\ exists h, In h (Headers agr) /\ fieldValue = Value h)
  \/ (fieldName = "user" /\ fieldValue = User agr)
  \/ (fieldName = "pass" /\ fieldValue = Pass agr)
  \/ (fieldName = "url" /\ fieldValue = URL agr).

(** A run that answers the caller with status 500 and the given message,
    leaves the plugin as it was and does not forward the request. *)
Definition answers_500 (c c' : OutgoingOAuth2CC) (evs : list event)
    (msg : string) : Prop :=
  c' = c
  /\ statuses evs = [500]
  /\ bodies evs = ["Internal Server Error: " ++ msg]
  /\ forwarded evs = [].

(** Further sample inputs: surroundings in which the token request cannot
    be built, and a configuration that lists the header [X-Info] twice. *)
Definition world_no_request (now : Time) : World :=
  {| now_check := now; now_grant := now;
     NewRequest := fun _ => Some "invalid URL";
     Do := fun _ => inl "unreachable";
     rw_Write_fails := false |}.

Definition config_two_headers : Config :=
  {| AuthGrantRequest :=
       {| URL := "http://as.example/token"; User := EmptyString;
          Pass := EmptyString; Scope := "read";
          Headers := [ {| Name := "X-Info"; Value := "first" |};
                       {| Name := "Authorization"; Value := "Bearer preset" |};
                       {| Name := "X-Info"; Value := "second" |} ];
          ExpiresMarginSeconds := 10; BasicAuthSkipEncoding := false |};
     Trace := false |}.

(** A decoder that knows two bodies. *)
Definition unmarshal_two (body1 : string) (data1 : gmap string JSON)
    (body2 : string) (data2 : gmap string JSON)
    : string -> string + gmap string JSON :=
  fun b => if String.eqb b body1 then inr data1
           else if String.eqb b body2 then inr data2
           else inl "invalid character".

(** The padding an encoding appends to a quantum: its padding character,
    or nothing. *)
Definition padding_chars (enc : base64.Encoding) : list ascii :=
  match base64.padChar enc with Some p => [p] | None => [] end.

(** * Properties *)

(** Case analysis on every [match] and [if] of a hypothesis that equates a
    computation with a result, dropping the impossible cases. *)
Ltac split_cases H :=
  repeat (match type of H with
          | context [match ?x with _ => _ end] => destruct x eqn:?
          | context [if ?x then _ else _] => destruct x eqn:?
          end; try discriminate).

(** One step through the error monad in a hypothesis. *)
Ltac bind_in H := cbn [mbind result_bind] in H.

(** ** The library models on the values of the test suite *)

Example SplitN_three : strings.SplitN "~env~A~B" "~" 3 = [""; "env"; "A~B"].
Proof. reflexivity. Qed.

Example SplitN_short : strings.SplitN "~base64~format" "~" 4 = [""; "base64"; "format"].
Proof. reflexivity. Qed.

Example DecodeString_std_unpadded :
  base64.DecodeString base64.StdEncoding "YWE" = Err (CorruptInputError 0).
Proof. reflexivity. Qed.

Example DecodeString_std_padded :
  base64.DecodeString base64.StdEncoding "YWE=" = Ok "aa".
Proof. reflexivity. Qed.

Example DecodeString_std_underscore :
  base64.DecodeString base64.StdEncoding "Pz8_" = Err (CorruptInputError 3).
Proof. reflexivity. Qed.

Example DecodeString_url_underscore :
  base64.DecodeString base64.URLEncoding "Pz8_" = Ok "???".
Proof. reflexivity. Qed.

Example DecodeString_raw_unpadded :
  base64.DecodeString base64.RawURLEncoding "YWE" = Ok "aa".
Proof. reflexivity. Qed.

Example DecodeString_raw_backquote :
  base64.DecodeString base64.RawURLEncoding "aa`" = Err (CorruptInputError 2).
Proof. reflexivity. Qed.

Example EncodeToString_simple :
  base64.EncodeToString base64.StdEncoding "user:pass" = "dXNlcjpwYXNz".
Proof. reflexivity. Qed.

Example QueryEscape_special : url.QueryEscape "user/=?&" = "user%2F%3D%3F%26".
Proof. reflexivity. Qed.

Example QueryEscape_space : url.QueryEscape "a b~c" = "a+b~c".
Proof. reflexivity. Qed.

Example fromFlexibleValue_no_source :
  fromFlexibleValue id empty_os "~base64~format" = Err (ErrInvalidFormat "~base64~format").
Proof. reflexivity. Qed.

Example fromFlexibleValue_unknown_source :
  fromFlexibleValue id empty_os "~invalid~format" = Err (ErrUnknownSource "invalid").
Proof. reflexivity. Qed.

Example fromFlexibleValue_missing_env :
  fromFlexibleValue id empty_os "~env~does-not-exist"
  = Err (ErrEnvNotFound "does-not-exist").
Proof. reflexivity. Qed.

Example fromFlexibleValue_missing_file :
  fromFlexibleValue id empty_os "~file~does-not-exist"
  = Err (ErrReadFile "no such file or directory").
Proof. reflexivity. Qed.

Example fromFlexibleValue_bad_base64 :
  fromFlexibleValue id empty_os "~base64~direct~aa`" = Err (CorruptInputError 2).
Proof. reflexivity. Qed.

Example itoa_status : itoa 403 = "403".
Proof. reflexivity. Qed.

Example floats_are_binary64 :
  SpecFloat.bounded 53 1024 7916483719987200 (-41) = true
  /\ SpecFloat.bounded 53 1024 5242880000000000 (-19) = true
  /\ float_trunc float_3600 = Some 3600
  /\ float_trunc float_1e10 = Some 10000000000.
Proof. repeat split. Qed.

(** ** Strings and splitting *)

Lemma HasPrefix_inv (s p : string) :
  strings.HasPrefix s p = true -> exists r, s = p ++ r.
Proof.
  revert s. induction p as [|a p IH]; intros s H.
  - exists s. reflexivity.
  - destruct s as [|b s]; [discriminate|]. cbn [strings.HasPrefix] in H.
    apply andb_true_iff in H as [Hab H].
    apply Ascii.eqb_eq in Hab as ->.
    destruct (IH s H) as [r ->]. exists r. reflexivity.
Qed.

Lemma no_tilde_prefix (v : string) :
  (forall rest, v <> String "~" rest) -> strings.HasPrefix v "~" = false.
Proof.
  intros H. destruct v as [|a v]; [reflexivity|]. cbn [strings.HasPrefix].
  rewrite andb_true_r. apply Ascii.eqb_neq. intros <-. exact (H v eq_refl).
Qed.

(** Cutting a value that starts with [~base64~] in up to four parts: the
    first two are always [""] and ["base64"] . *)
Lemma SplitN_base64 (r : string) :
  strings.SplitN ("~base64~" ++ r) "~" 4 =
  "" :: "base64" :: strings.split_loop 1 r "~".
Proof. reflexivity. Qed.

(** ** base64 decoding only fails with [CorruptInputError] *)

Lemma decode_padding_err enc dbuf rest si out e :
  base64.decode_padding enc dbuf rest si out = Err e ->
  exists n, e = CorruptInputError n.
Proof.
  unfold base64.decode_padding. intros H.
  split_cases H; injection H as <-; eauto.
Qed.

Lemma decode_loop_err enc src : forall si dbuf out e,
  base64.decode_loop enc src si dbuf out = Err e ->
  exists n, e = CorruptInputError n.
Proof.
  induction src as [|c rest IH]; intros si dbuf out e H; simpl in H.
  - destruct dbuf as [|? [|? ?]]; try discriminate;
      try (injection H as <-; eauto; fail);
      destruct (base64.padChar enc); try discriminate; injection H as <-; eauto.
  - destruct (base64.decodeMap enc c).
    + destruct (_ =? _)%nat; eapply IH; eassumption.
    + destruct (base64.is_newline c); [eapply IH; eassumption|].
      destruct (base64.is_pad enc c).
      * eapply decode_padding_err; eassumption.
      * injection H as <-; eauto.
Qed.

Lemma DecodeString_err enc s e :
  base64.DecodeString enc s = Err e -> exists n, e = CorruptInputError n.
Proof.
  unfold base64.DecodeString.
  destruct (base64.decode_loop _ _ _ _ _) eqn:H; [discriminate|].
  intros [= <-]. eapply decode_loop_err; eassumption.
Qed.

(** ** The flexible-value resolver *)

Section ResolverProperties.

Variable TrimSpace : string -> string.
Variable os : OS.

Lemma resolve_source_ok (source payload value : string) :
  resolve_source TrimSpace os source payload = Ok value ->
  source = "file" \/ source = "env" \/ source = "direct".
Proof.
  unfold resolve_source. intros H.
  destruct (String.eqb_spec source "file") as [->|_]; [auto|].
  destruct (String.eqb_spec source "env") as [->|_]; [auto|].
  destruct (String.eqb_spec source "direct") as [->|_]; [auto|].
  discriminate.
Qed.

Lemma resolve_source_err (source payload : string) (e : error) :
  resolve_source TrimSpace os source payload = Err e ->
  forall enc, e <> ErrUnknownEncoding enc.
Proof.
  unfold resolve_source. intros H enc.
  split_cases H; injection H as <-; discriminate.
Qed.

Lemma decode_variants_eq (value : string) :
  decode_variants value =
  first_success (base64.DecodeString base64.StdEncoding value)
    [base64.DecodeString base64.URLEncoding value;
     base64.DecodeString base64.RawURLEncoding value].
Proof.
  unfold decode_variants.
  destruct (base64.DecodeString base64.StdEncoding value); [reflexivity|].
  cbn [is_err first_success].
  destruct (base64.DecodeString base64.URLEncoding value); [reflexivity|].
  cbn [is_err first_success].
  destruct (base64.DecodeString base64.RawURLEncoding value); reflexivity.
Qed.

Lemma decode_variants_err (value : string) (e : error) :
  decode_variants value = Err e -> exists n, e = CorruptInputError n.
Proof.
  unfold decode_variants.
  destruct (base64.DecodeString base64.StdEncoding value) eqn:H1; [discriminate|].
  cbn [is_err].
  destruct (base64.DecodeString base64.URLEncoding value) eqn:H2; [discriminate|].
  cbn [is_err]. apply DecodeString_err.
Qed.

(** A value with the [~base64~] prefix and a known source is resolved and
    then handed to the three decoders. *)
Lemma fromFlexibleValue_base64 (source payload : string) :
  source = "file" \/ source = "env" \/ source = "direct" ->
  fromFlexibleValue TrimSpace os ("~base64~" ++ source ++ "~" ++ payload) =
  value ← resolve_source TrimSpace os source payload; decode_variants value.
Proof.
  intros [-> | [-> | ->]]; reflexivity.
Qed.

(** C9: a value that does not start with [~] is returned unchanged, and
    resolving it never fails. *)
Theorem C9_literal_unchanged (fieldName fieldValue : string) :
  (forall rest, fieldValue <> String "~" rest) ->
  fromFlexibleValue TrimSpace os fieldValue = Ok fieldValue
  /\ fromFlexibleField TrimSpace os fieldName fieldValue = Ok fieldValue.
Proof.
  intros H. apply no_tilde_prefix in H.
  assert (E : fromFlexibleValue TrimSpace os fieldValue = Ok fieldValue).
  { unfold fromFlexibleValue. rewrite H. reflexivity. }
  split; [exact E|].
  unfold fromFlexibleField. rewrite E. reflexivity.
Qed.

(** C8: [~direct~payload] resolves to [payload] verbatim, whatever the
    payload holds; in particular [~direct~~X] resolves to [~X]. *)
Theorem C8_direct_verbatim :
  (forall X : string, fromFlexibleValue TrimSpace os ("~direct~~" ++ X) = Ok ("~" ++ X))
  /\ (forall payload : string,
        fromFlexibleValue TrimSpace os ("~direct~" ++ payload) = Ok payload).
Proof.
  split; intros; reflexivity.
Qed.

(** C10: resolution never returns the unknown-encoding error: the
    decoding branch is only entered for a value that starts with
    [~base64~], and then the encoding segment is ["base64"] . *)
Theorem C10_unknown_encoding_unreachable (fieldValue encoding : string) :
  fromFlexibleValue TrimSpace os fieldValue <> Err (ErrUnknownEncoding encoding).
Proof.
  unfold fromFlexibleValue.
  destruct (strings.HasPrefix fieldValue "~"); cbn [negb]; [|discriminate].
  destruct (strings.HasPrefix fieldValue "~base64~") eqn:Hb.
  - apply HasPrefix_inv in Hb as [r ->].
    rewrite SplitN_base64.
    generalize (strings.split_loop 1 r "~"). intros parts.
    destruct parts as [|source [|value parts]]; try discriminate.
    cbn -[resolve_source decode_variants].
    destruct (resolve_source TrimSpace os source value) as [v|e] eqn:Hr.
    + intros Hd. apply decode_variants_err in Hd as [n Hn]. discriminate.
    + intros [= He]. exact (resolve_source_err _ _ _ Hr _ He).
  - generalize (strings.SplitN fieldValue "~" (1 + 1 + 1 + 0)). intros parts.
    destruct parts as [|enc [|source [|value parts]]]; try discriminate.
    cbn -[resolve_source].
    destruct (resolve_source TrimSpace os source value) as [v|e] eqn:Hr.
    + discriminate.
    + intros [= He]. exact (resolve_source_err _ _ _ Hr _ He).
Qed.

(** C6: behind the [~base64~] prefix the resolved payload is decoded with
    the standard alphabet, then the padded URL-safe one, then the unpadded
    URL-safe one; the first success is the result and resolution fails
    only if all three fail.  The four sample values decode to ["aa"] and
    ["???"] . *)
Theorem C6_base64_variants :
  (forall source payload value : string,
      resolve_source TrimSpace os source payload = Ok value ->
      let std := base64.DecodeString base64.StdEncoding value in
      let padded := base64.DecodeString base64.URLEncoding value in
      let raw := base64.DecodeString base64.RawURLEncoding value in
      let r := fromFlexibleValue TrimSpace os
                 ("~base64~" ++ source ++ "~" ++ payload) in
      r = first_success std [padded; raw]
      /\ (is_err r = true <->
          is_err std = true /\ is_err padded = true /\ is_err raw = true))
  /\ fromFlexibleValue TrimSpace os "~base64~direct~YWE" = Ok "aa"
  /\ fromFlexibleValue TrimSpace os "~base64~direct~YWE=" = Ok "aa"
  /\ fromFlexibleValue TrimSpace os "~base64~direct~Pz8_" = Ok "???"
  /\ fromFlexibleValue TrimSpace os "~base64~direct~Pz8/" = Ok "???".
Proof.
  split; [|repeat split; reflexivity].
  intros source payload value Hr std padded raw r.
  assert (E : r = first_success std [padded; raw]).
  { subst r. rewrite (fromFlexibleValue_base64 _ _ (resolve_source_ok _ _ _ Hr)).
    rewrite Hr. apply decode_variants_eq. }
  split; [exact E|]. rewrite E.
  destruct std, padded, raw; cbn; intuition discriminate.
Qed.

Lemma fromFlexibleField_ok (fieldName fieldValue r : string) :
  fromFlexibleValue TrimSpace os fieldValue = Ok r ->
  fromFlexibleField TrimSpace os fieldName fieldValue = Ok r.
Proof. unfold fromFlexibleField. intros ->. reflexivity. Qed.

Lemma fromFlexibleField_err (fieldName fieldValue : string) :
  is_err (fromFlexibleValue TrimSpace os fieldValue) = true ->
  fromFlexibleField TrimSpace os fieldName fieldValue =
  Err (ErrField fieldName fieldValue
         match fromFlexibleValue TrimSpace os fieldValue with
         | Err e => e
         | Ok _ => ErrMissingURL
         end).
Proof.
  unfold fromFlexibleField.
  destruct (fromFlexibleValue TrimSpace os fieldValue); [discriminate|reflexivity].
Qed.

(** C7: when the resolved user is not empty, [New] stores under
    [Authorization] the text ["Basic "] followed by the standard base64 of
    user, [:] and password, both form-urlencoded unless
    [basicAuthSkipEncoding] is set; for [user/=?&] and [pass/=?&] that is
    [Basic dXNlciUyRiUzRCUzRiUyNjpwYXNzJTJGJTNEJTNGJTI2]. *)
Theorem C7_basic_auth_header :
  (forall (config : Config) (nm : string) (c : OutgoingOAuth2CC)
          (user pass : string),
      New TrimSpace os config nm = Ok c ->
      fromFlexibleValue TrimSpace os (User (AuthGrantRequest config)) = Ok user ->
      user <> "" ->
      fromFlexibleValue TrimSpace os (Pass (AuthGrantRequest config)) = Ok pass ->
      let skip := BasicAuthSkipEncoding (AuthGrantRequest config) in
      authGrantHeaders c !! "Authorization" =
      Some ("Basic " ++ base64.EncodeToString base64.StdEncoding
              (form_encode skip user ++ ":" ++ form_encode skip pass)))
  /\ (exists c,
        New TrimSpace os
          (config_with "http://as.example/token" "user/=?&" "pass/=?&" 0 false)
          "test" = Ok c
        /\ authGrantHeaders c !! "Authorization" =
           Some "Basic dXNlciUyRiUzRCUzRiUyNjpwYXNzJTJGJTNEJTNGJTI2").
Proof.
  split.
  - intros config nm c user pass HN Hu Hne Hp skip.
    unfold New in HN.
    destruct (resolve_headers _ _ _ _) as [hdrs|]; [|discriminate].
    bind_in HN.
    rewrite (fromFlexibleField_ok _ _ _ Hu) in HN.
    bind_in HN.
    apply String.eqb_neq in Hne. rewrite Hne in HN.
    cbn [negb] in HN.
    rewrite (fromFlexibleField_ok _ _ _ Hp) in HN.
    bind_in HN.
    destruct (fromFlexibleField TrimSpace os "url" _) as [grantUrl|];
      bind_in HN; [|discriminate].
    destruct (String.eqb grantUrl ""); [discriminate|].
    injection HN as <-. cbn [authGrantHeaders].
    apply lookup_insert_eq.
  - eexists. split; [reflexivity|]. vm_compute. reflexivity.
Qed.

Lemma resolve_headers_err (headers : list Header) :
  Exists (fun h => header_fails TrimSpace os h = true) headers ->
  forall m, is_err (resolve_headers TrimSpace os headers m) = true.
Proof.
  induction 1 as [h rest Hh | h rest _ IH]; intros m; cbn [resolve_headers].
  - unfold header_fails in Hh. apply orb_true_iff in Hh as [Hh|Hh].
    + rewrite (fromFlexibleField_err _ _ Hh). reflexivity.
    + destruct (fromFlexibleField TrimSpace os "header.name" (Name h));
        [|reflexivity].
      cbn [mbind result_bind].
      rewrite (fromFlexibleField_err _ _ Hh). reflexivity.
  - destruct (fromFlexibleField TrimSpace os "header.name" (Name h));
      [|reflexivity].
    destruct (fromFlexibleField TrimSpace os "header.value" (Value h));
      [|reflexivity].
    apply IH.
Qed.

(** C3, amended: [New] returns an error, and so no plugin, when a header
    name or value, the user or the URL does not resolve, and when the
    password does not resolve while the user resolves to a non-empty
    string.  When the user resolves to the empty string the password is
    not looked at: [New] gives the same result for every password. *)
Theorem C3_unresolved_field_fails_New (config : Config) (nm : string) :
  let agr := AuthGrantRequest config in
  (Exists (fun h => header_fails TrimSpace os h = true) (Headers agr)
   \/ is_err (fromFlexibleValue TrimSpace os (User agr)) = true
   \/ (exists user, fromFlexibleValue TrimSpace os (User agr) = Ok user
                    /\ user <> ""
                    /\ is_err (fromFlexibleValue TrimSpace os (Pass agr)) = true)
   \/ is_err (fromFlexibleValue TrimSpace os (URL agr)) = true ->
   exists e, New TrimSpace os config nm = Err e)
  /\ (fromFlexibleValue TrimSpace os (User agr) = Ok "" ->
      forall pass, New TrimSpace os (with_Pass config pass) nm
                   = New TrimSpace os config nm).
Proof.
  intros agr. split.
  - intros H. unfold New. fold agr.
    assert (D : forall r : result OutgoingOAuth2CC,
               is_err r = true -> exists e, r = Err e).
    { intros [|e]; [discriminate|]. eauto. }
    apply D.
    destruct (resolve_headers TrimSpace os (Headers agr) ∅) as [hdrs|] eqn:Hh;
      cbn [mbind result_bind]; [|reflexivity].
    destruct H as [H | H].
    { apply resolve_headers_err with (m := ∅) in H. rewrite Hh in H. discriminate. }
    destruct (fromFlexibleField TrimSpace os "user" (User agr)) as [user|] eqn:Hu;
      cbn [mbind result_bind]; [|reflexivity].
    destruct H as [H | H].
    { rewrite (fromFlexibleField_err _ _ H) in Hu. discriminate. }
    destruct (String.eqb user "") eqn:E; cbn [negb mbind result_bind].
    + destruct H as [(user' & Hu' & Hne' & _) | H].
      { rewrite (fromFlexibleField_ok _ _ _ Hu') in Hu. injection Hu as <-.
        apply String.eqb_eq in E. contradiction. }
      rewrite (fromFlexibleField_err _ _ H). reflexivity.
    + destruct (fromFlexibleField TrimSpace os "pass" (Pass agr)) as [pass|] eqn:Hp;
        cbn [mbind result_bind]; [|reflexivity].
      destruct H as [(user' & _ & _ & H) | H].
      { rewrite (fromFlexibleField_err _ _ H) in Hp. discriminate. }
      rewrite (fromFlexibleField_err _ _ H). reflexivity.
  - intros Hu pass. unfold New, with_Pass.
    cbn [AuthGrantRequest URL User Pass Scope Headers ExpiresMarginSeconds
         BasicAuthSkipEncoding Trace].
    fold agr.
    destruct (resolve_headers TrimSpace os (Headers agr) ∅) as [hdrs|];
      cbn [mbind result_bind]; [|reflexivity].
    rewrite (fromFlexibleField_ok "user" _ _ Hu).
    reflexivity.
Qed.

End ResolverProperties.

(** C6 at the value [~base64~env~TEST_ENV_BASE64] of the test suite. *)
Lemma C6_base64_variants_witness :
  let os := {| ReadFile := fun _ => inl "no such file or directory";
               LookupEnv := fun n => if String.eqb n "TEST_ENV_BASE64"
                                     then Some "ZW52X3ZhbHVl" else None |} in
  resolve_source id os "env" "TEST_ENV_BASE64" = Ok "ZW52X3ZhbHVl"
  /\ fromFlexibleValue id os "~base64~env~TEST_ENV_BASE64" = Ok "env_value".
Proof.
  intros os. split; [reflexivity|].
  exact (proj1 (proj1 (C6_base64_variants id os) "env" "TEST_ENV_BASE64"
                  "ZW52X3ZhbHVl" eq_refl)).
Defined.

(** C9 at the literal [direct_value]. *)
Lemma C9_literal_unchanged_witness :
  fromFlexibleValue id empty_os "direct_value" = Ok "direct_value"
  /\ fromFlexibleField id empty_os "user" "direct_value" = Ok "direct_value".
Proof.
  apply (C9_literal_unchanged id empty_os "user" "direct_value").
  intros rest. discriminate.
Defined.

(** C7 with the encoding skipped: [user:pass] . *)
Lemma C7_basic_auth_header_witness :
  exists c,
    New id empty_os (config_with "http://as.example/token" "user" "pass" 0 true)
      "test" = Ok c
    /\ authGrantHeaders c !! "Authorization" = Some "Basic dXNlcjpwYXNz".
Proof.
  destruct (New id empty_os
              (config_with "http://as.example/token" "user" "pass" 0 true) "test")
    as [c|e] eqn:HN; [|vm_compute in HN; discriminate].
  exists c. split; [reflexivity|].
  refine (proj1 (C7_basic_auth_header id empty_os) _ "test" c "user" "pass"
            HN eq_refl _ eq_refl).
  discriminate.
Defined.

(** C3 as stated fails: with no user, a password that does not resolve
    does not keep [New] from building the plugin. *)
Lemma C3_counterexample :
  let config := config_with "http://as.example/token" "" "~env~OAUTH_PASS" 0 false in
  is_err (fromFlexibleValue id empty_os (Pass (AuthGrantRequest config))) = true
  /\ is_err (New id empty_os config "mw") = false.
Proof. split; reflexivity. Qed.

(** C3, amended, where the password is needed and missing. *)
Lemma C3_unresolved_field_fails_New_witness :
  exists e,
    New id empty_os
      (config_with "http://as.example/token" "client" "~env~OAUTH_PASS" 0 false)
      "mw" = Err e.
Proof.
  apply (proj1 (C3_unresolved_field_fails_New id empty_os _ "mw")).
  right. right. left. exists "client". repeat split. discriminate.
Defined.

(** ** Integers and floats *)

Lemma wrap64_id (z : Z) :
  min_int64 <= z <= max_int64 -> wrap64 z = z.
Proof.
  unfold wrap64, min_int64, max_int64. intros H.
  rewrite Z.mod_small; lia.
Qed.

Lemma maxInt_max (a b : Z) : maxInt a b = Z.max a b.
Proof. unfold maxInt. destruct (Z.gtb_spec a b); lia. Qed.

(** The integer part of a float is its floor, except for a negative value
    that is not an integer, where it lies between the floor and zero. *)
Lemma float_trunc_floor (f : spec_float) (e : Z) :
  float_floor f = Some e ->
  exists t, float_trunc f = Some t /\ e <= t /\ (t = e \/ t <= 0).
Proof.
  destruct f as [s|s| |s m ex]; cbn [float_floor float_trunc]; try discriminate.
  - intros [= <-]. exists 0. split; [reflexivity|lia].
  - intros [= <-]. destruct s.
    + exists (- Z.shiftl (Z.pos m) ex).
      assert (0 <= Z.shiftl (Z.pos m) ex) by (apply Z.shiftl_nonneg; lia).
      split; [reflexivity|]. split; [|lia].
      destruct (Z.le_gt_cases 0 ex) as [Hex|Hex].
      * rewrite !Z.shiftl_mul_pow2 by lia.
        change (Z.neg m) with (- Z.pos m). rewrite Z.mul_opp_l. lia.
      * rewrite !Z.shiftl_div_pow2 by lia.
        assert (Hd : 0 < 2 ^ (- ex)) by (apply Z.pow_pos_nonneg; lia).
        pose proof (Z.div_mod (Z.pos m) _ (Z.neq_sym _ _ (Z.lt_neq _ _ Hd))) as E1.
        pose proof (Z.mod_pos_bound (Z.pos m) _ Hd) as B1.
        pose proof (Z.div_mod (Z.neg m) _ (Z.neq_sym _ _ (Z.lt_neq _ _ Hd))) as E2.
        pose proof (Z.mod_pos_bound (Z.neg m) _ Hd) as B2.
        change (Z.neg m) with (- Z.pos m) in *. nia.
    + exists (Z.shiftl (Z.pos m) ex). split; [reflexivity|]. lia.
Qed.

(** ** The request handler *)

Lemma grants_app (a b : list event) :
  grants (a ++ b) = (grants a + grants b)%nat.
Proof. induction a as [|[] a IH]; cbn; rewrite ?IH; reflexivity. Qed.

Lemma forwarded_app (a b : list event) :
  forwarded (a ++ b) = (forwarded a ++ forwarded b)%list.
Proof. induction a as [|[] a IH]; cbn; rewrite ?IH; reflexivity. Qed.

Lemma statuses_app (a b : list event) :
  statuses (a ++ b) = (statuses a ++ statuses b)%list.
Proof. induction a as [|[] a IH]; cbn; rewrite ?IH; reflexivity. Qed.

Lemma serveError_events (w : World) (msg : string) (status : Z) :
  grants (serveError w msg status) = 0%nat
  /\ forwarded (serveError w msg status) = []
  /\ statuses (serveError w msg status) = [status]
  /\ bodies (serveError w msg status) = [http.StatusText status ++ ": " ++ msg].
Proof. unfold serveError. destruct (rw_Write_fails w); repeat split. Qed.

Lemma trace_response_events (c : OutgoingOAuth2CC) (body : string) :
  grants (trace_response c body) = 0%nat
  /\ forwarded (trace_response c body) = []
  /\ statuses (trace_response c body) = [].
Proof. unfold trace_response. destruct (trace c); repeat split. Qed.

Section HandlerProperties.

Variable Unmarshal : string -> string + gmap string JSON.
Variable ParseFloat : string -> spec_float * option string.
Variable int64_indefinite : spec_float -> Z.

(** What [read_grant] leaves behind: either an error response and no new
    state, or a new state and at most a line of trace. *)
Lemma read_grant_events (c : OutgoingOAuth2CC) (w : World) (body : string) :
  match read_grant Unmarshal ParseFloat int64_indefinite c w body with
  | (None, evs) => grants evs = 0%nat /\ forwarded evs = []
  | (Some c', evs) =>
      grants evs = 0%nat /\ forwarded evs = [] /\ statuses evs = []
  end.
Proof.
  unfold read_grant, serveInternalError.
  destruct (Unmarshal body) as [err|responseData].
  { split; apply serveError_events. }
  destruct (assert_string (responseData !! "access_token")) as [accessToken []];
    cbn [negb]; [|split; apply serveError_events].
  destruct (assert_string (responseData !! "expires_in")) as [expiresInStr okStr].
  destruct (assert_float64 (responseData !! "expires_in")) as [expiresInFlt okFlt].
  destruct (if negb okFlt && okStr then _ else _) as [flt err].
  destruct (negb okFlt && bool_decide (err <> None)).
  { split; apply serveError_events. }
  destruct (trace c); repeat split.
Qed.

(** A request that finds the token expired ends in one of two ways: the
    caller gets an error response and the plugin is unchanged, or one
    token request was sent and the request is forwarded with the new
    token. *)
Lemma ServeHTTP_expired (c : OutgoingOAuth2CC) (w : World) (req : http.Request) :
  After (now_check w) (expires (st c)) = true ->
  let '(c', evs) := ServeHTTP Unmarshal ParseFloat int64_indefinite c w req in
  (c' = c /\ forwarded evs = [] /\ (grants evs <= 1)%nat)
  \/ (grants evs = 1%nat
      /\ forwarded evs = [set_authorization req ("Bearer " ++ token (st c'))]
      /\ statuses evs = []).
Proof.
  intros Hexp. unfold ServeHTTP. rewrite Hexp.
  destruct (NewRequest w (authGrantUrl c)) as [err|].
  { left. unfold serveInternalError.
    destruct (serveError_events w ("new-request: " ++ err)
                http.StatusInternalServerError) as (-> & -> & _).
    repeat split; lia. }
  destruct (Do w (grant_request c)) as [err|agRes].
  { left. unfold serveInternalError. cbn [grants forwarded].
    destruct (serveError_events w ("do-request: " ++ err)
                http.StatusInternalServerError) as (-> & -> & _).
    repeat split; lia. }
  destruct (trace_response_events c (http.Body agRes)) as (Tg & Tf & Ts).
  destruct (negb (http.StatusCode agRes =? 200)).
  { left. cbn [grants forwarded]. rewrite grants_app, forwarded_app, Tg, Tf.
    destruct (serveError_events w
                ("status-code: " ++ itoa (http.StatusCode agRes))
                (http.StatusCode agRes)) as (-> & -> & _).
    repeat split; lia. }
  pose proof (read_grant_events c w (http.Body agRes)) as R.
  destruct (read_grant _ _ _ c w (http.Body agRes)) as [[c'|] evs].
  - right. destruct R as (Rg & Rf & Rs).
    cbn [grants forwarded statuses].
    rewrite !grants_app, !forwarded_app, !statuses_app, Tg, Tf, Ts, Rg, Rf, Rs.
    repeat split; lia.
  - left. destruct R as (Rg & Rf).
    cbn [grants forwarded]. rewrite grants_app, forwarded_app, Tg, Tf, Rg, Rf.
    repeat split; lia.
Qed.

(** C4: a request that arrives while the token is valid (the current time
    is not after the stored expiry) sends no token request, gets
    [Authorization: Bearer <token>] in place of whatever the caller had
    put there, and is handed to the next handler; the plugin is
    unchanged.  So when the preceding request fetched the token and was
    forwarded, the two requests made one token request and carry the
    same token. *)
Theorem C4_valid_token_reused
    (c : OutgoingOAuth2CC) (w : World) (req : http.Request) :
  now_check w <= expires (st c) ->
  let bearer := "Bearer " ++ token (st c) in
  let run := ServeHTTP Unmarshal ParseFloat int64_indefinite c w req in
  run = (c, [EvNext (set_authorization req bearer)])
  /\ grants (snd run) = 0%nat
  /\ http.Header_Get (http.Header_of (set_authorization req bearer))
       "Authorization" = bearer
  /\ forall (c0 : OutgoingOAuth2CC) (w0 : World) (req0 : http.Request)
            (evs0 : list event),
       After (now_check w0) (expires (st c0)) = true ->
       ServeHTTP Unmarshal ParseFloat int64_indefinite c0 w0 req0 = (c, evs0) ->
       forwarded evs0 <> [] ->
       grants (evs0 ++ snd run) = 1%nat
       /\ forwarded (evs0 ++ snd run) =
          [set_authorization req0 bearer; set_authorization req bearer].
Proof.
  intros Hvalid bearer run.
  assert (E : run = (c, [EvNext (set_authorization req bearer)])).
  { subst run. unfold ServeHTTP, After.
    destruct (Z.gtb_spec (now_check w) (expires (st c))); [lia|]. reflexivity. }
  rewrite E. cbn [snd grants].
  split; [reflexivity|]. split; [reflexivity|]. split.
  { unfold http.Header_Get, set_authorization, http.Header_Set.
    cbn [http.Header_of]. rewrite lookup_insert_eq. reflexivity. }
  intros c0 w0 req0 evs0 Hexp Hrun Hfw.
  pose proof (ServeHTTP_expired c0 w0 req0 Hexp) as H.
  rewrite Hrun in H. destruct H as [(_ & Hnone & _) | (Hg & Hf & _)].
  { contradiction. }
  rewrite grants_app, forwarded_app, Hg, Hf. split; reflexivity.
Qed.

(** The run of a request that fetches a token and gets the answer 200. *)
Lemma ServeHTTP_200 (c : OutgoingOAuth2CC) (w : World) (req : http.Request)
    (body : string) :
  After (now_check w) (expires (st c)) = true ->
  NewRequest w (authGrantUrl c) = None ->
  Do w (grant_request c) = inr {| http.StatusCode := 200; http.Body := body |} ->
  ServeHTTP Unmarshal ParseFloat int64_indefinite c w req =
  match read_grant Unmarshal ParseFloat int64_indefinite c w body with
  | (None, evs) =>
      (c, EvDo (grant_request c) :: trace_response c body ++ evs)%list
  | (Some c', evs) =>
      (c', EvDo (grant_request c) :: trace_response c body ++ evs
           ++ forward c' req)%list
  end.
Proof.
  intros Hexp Hnew Hdo. unfold ServeHTTP. rewrite Hexp, Hnew, Hdo. reflexivity.
Qed.

(** The run of a request that fetches a token and gets another answer. *)
Lemma ServeHTTP_non200 (c : OutgoingOAuth2CC) (w : World) (req : http.Request)
    (agRes : http.Response) :
  After (now_check w) (expires (st c)) = true ->
  NewRequest w (authGrantUrl c) = None ->
  Do w (grant_request c) = inr agRes ->
  http.StatusCode agRes <> 200 ->
  ServeHTTP Unmarshal ParseFloat int64_indefinite c w req =
  (c, EvDo (grant_request c) :: trace_response c (http.Body agRes)
      ++ serveError w ("status-code: " ++ itoa (http.StatusCode agRes))
           (http.StatusCode agRes))%list.
Proof.
  intros Hexp Hnew Hdo Hne. unfold ServeHTTP. rewrite Hexp, Hnew, Hdo.
  apply Z.eqb_neq in Hne. rewrite Hne. reflexivity.
Qed.

(** C1, as the code has it: a 200 response whose body holds the token
    but no [expires_in] (or one that is neither a number nor a string) is
    not answered with status 500: [expires_in] counts as 0, the token is
    stored, nothing is written to the caller and the request is
    forwarded. *)
Theorem C1_missing_expires_in_is_accepted
    (c : OutgoingOAuth2CC) (w : World) (req : http.Request) (body : string)
    (responseData : gmap string JSON) (accessToken : string) :
  After (now_check w) (expires (st c)) = true ->
  NewRequest w (authGrantUrl c) = None ->
  Do w (grant_request c) = inr {| http.StatusCode := 200; http.Body := body |} ->
  Unmarshal body = inr responseData ->
  responseData !! "access_token" = Some (JString accessToken) ->
  (forall f, responseData !! "expires_in" <> Some (JNumber f)) ->
  (forall s, responseData !! "expires_in" <> Some (JString s)) ->
  let '(c', evs) := ServeHTTP Unmarshal ParseFloat int64_indefinite c w req in
  token (st c') = accessToken
  /\ expires (st c') =
     Truncate (now_grant w) Second
     + wrap64 (maxInt 1 (wrap64 (0 - authGrantExpiresMarginSeconds c)) * Second)
  /\ statuses evs = []
  /\ forwarded evs = [set_authorization req ("Bearer " ++ accessToken)].
Proof.
  intros Hexp Hnew Hdo HU Htok Hnum Hstr.
  rewrite (ServeHTTP_200 c w req body Hexp Hnew Hdo).
  pose proof (read_grant_events c w body) as R. revert R.
  unfold read_grant. rewrite HU, Htok. cbn [assert_string negb].
  assert (Es : assert_string (responseData !! "expires_in") = ("", false)).
  { destruct (responseData !! "expires_in") as [[| | |s| |]|]; try reflexivity.
    destruct (Hstr s). reflexivity. }
  assert (Ef : assert_float64 (responseData !! "expires_in")
               = (S754_zero false, false)).
  { destruct (responseData !! "expires_in") as [[| |f| | |]|]; try reflexivity.
    destruct (Hnum f). reflexivity. }
  rewrite Es, Ef. cbn [negb andb].
  rewrite bool_decide_eq_false_2 by (intros H; apply H; reflexivity).
  intros (_ & Rf & Rs).
  destruct (trace_response_events c body) as (_ & Tf & Ts).
  cbn [st set_state token statuses forwarded].
  rewrite !statuses_app, !forwarded_app, Tf, Ts, Rf, Rs.
  repeat split.
Qed.

(** The neighbouring case that the guard does catch: an [expires_in] string
    that does not parse is answered with status 500. *)
Lemma read_grant_unparseable (c : OutgoingOAuth2CC) (w : World) (body : string)
    (responseData : gmap string JSON) (accessToken s err : string)
    (f : spec_float) :
  Unmarshal body = inr responseData ->
  responseData !! "access_token" = Some (JString accessToken) ->
  responseData !! "expires_in" = Some (JString s) ->
  ParseFloat s = (f, Some err) ->
  read_grant Unmarshal ParseFloat int64_indefinite c w body =
  (None, serveInternalError w "expires_in not found or not parseable").
Proof.
  intros HU Htok Hs Hp. unfold read_grant.
  rewrite HU, Htok, Hs. cbn [assert_string assert_float64 negb andb].
  rewrite Hp. rewrite bool_decide_eq_true_2 by discriminate. reflexivity.
Qed.


Lemma New_margin (TrimSpace : string -> string) (os : OS) (config : Config)
    (nm : string) (c0 : OutgoingOAuth2CC) :
  New TrimSpace os config nm = Ok c0 ->
  authGrantExpiresMarginSeconds c0 =
  Z.max 1 (ExpiresMarginSeconds (AuthGrantRequest config)).
Proof.
  unfold New. intros H.
  destruct (resolve_headers _ _ _ _); bind_in H; [|discriminate].
  destruct (fromFlexibleField _ _ "user" _) as [user|];
    bind_in H; [|discriminate].
  destruct (if negb (String.eqb user "") then _ else _);
    bind_in H; [|discriminate].
  destruct (fromFlexibleField _ _ "url" _) as [grantUrl|];
    bind_in H; [|discriminate].
  destruct (String.eqb grantUrl ""); [discriminate|].
  injection H as <-. apply maxInt_max.
Qed.

(** The seconds added to the truncated time, within the range of the
    integer types. *)
Lemma adjusted_seconds (f : spec_float) (e margin : Z) :
  float_floor f = Some e ->
  1 <= margin ->
  min_int64 <= e - margin ->
  e <= max_int64 ->
  Z.max 1 (e - margin) * Second <= max_int64 ->
  wrap64 (maxInt 1 (wrap64 (int64_of_float int64_indefinite f - margin)) * Second)
  = Z.max 1 (e - margin) * Second.
Proof.
  intros Hf Hm Hlo Hhi Hdur.
  destruct (float_trunc_floor f e Hf) as (t & Ht & Hle & Hcase).
  unfold int64_of_float. rewrite Ht.
  assert (Hin : in_int64 t = true).
  { unfold in_int64, min_int64, max_int64 in *.
    apply andb_true_iff. split; apply Z.leb_le; lia. }
  rewrite Hin.
  rewrite (wrap64_id (t - margin)) by (unfold min_int64, max_int64 in *; lia).
  rewrite maxInt_max.
  replace (Z.max 1 (t - margin)) with (Z.max 1 (e - margin)) by lia.
  apply wrap64_id. unfold min_int64, max_int64, Second in *. lia.
Qed.

(** C5, amended: the margin is the configured one raised to at least 1 by
    [New]; after a grant whose [expires_in] is a number, or a string that
    parses as one, with floor [e] such that [e - margin] and [e] are
    [int64] values and [max 1 (e - margin)] seconds fit in a
    [time.Duration], the stored expiry is the current time truncated to
    the second plus [max 1 (e - margin)] seconds.  It is at least one
    second after the truncated time, hence after the current time, and
    exactly one second after it when the margin is not below
    [expires_in]. *)
Theorem C5_expiry_after_grant
    (TrimSpace : string -> string) (os : OS) (config : Config) (nm : string)
    (c0 c : OutgoingOAuth2CC) (w : World) (req : http.Request) (body : string)
    (responseData : gmap string JSON) (accessToken : string)
    (f : spec_float) (e : Z) :
  New TrimSpace os config nm = Ok c0 ->
  authGrantExpiresMarginSeconds c = authGrantExpiresMarginSeconds c0 ->
  After (now_check w) (expires (st c)) = true ->
  NewRequest w (authGrantUrl c) = None ->
  Do w (grant_request c) = inr {| http.StatusCode := 200; http.Body := body |} ->
  Unmarshal body = inr responseData ->
  responseData !! "access_token" = Some (JString accessToken) ->
  (responseData !! "expires_in" = Some (JNumber f)
   \/ exists s, responseData !! "expires_in" = Some (JString s)
                /\ ParseFloat s = (f, None)) ->
  float_floor f = Some e ->
  let margin := Z.max 1 (ExpiresMarginSeconds (AuthGrantRequest config)) in
  min_int64 <= e - margin ->
  e <= max_int64 ->
  Z.max 1 (e - margin) * Second <= max_int64 ->
  let c' := fst (ServeHTTP Unmarshal ParseFloat int64_indefinite c w req) in
  let start := Truncate (now_grant w) Second in
  authGrantExpiresMarginSeconds c = margin
  /\ token (st c') = accessToken
  /\ expires (st c') = start + Z.max 1 (e - margin) * Second
  /\ start + Second <= expires (st c')
  /\ now_grant w < expires (st c')
  /\ (e <= margin -> expires (st c') = start + Second).
Proof.
  intros HN Hsame Hexp Hnew Hdo HU Htok Hexpires Hf margin Hlo Hhi Hdur c' start.
  assert (Hm : authGrantExpiresMarginSeconds c = margin).
  { rewrite Hsame. exact (New_margin _ _ _ _ _ HN). }
  assert (Hm1 : 1 <= margin) by (subst margin; lia).
  assert (E : st c' =
              {| token := accessToken;
                 expires := start + Z.max 1 (e - margin) * Second |}).
  { subst c'. rewrite (ServeHTTP_200 c w req body Hexp Hnew Hdo).
    unfold read_grant. rewrite HU, Htok. cbn [assert_string negb].
    destruct Hexpires as [Hnum | (s & Hstr & Hparse)].
    - rewrite Hnum. cbn [assert_string assert_float64 negb andb].
      cbn [fst st set_state]. unfold Add. rewrite Hm.
      rewrite (adjusted_seconds f e margin Hf Hm1 Hlo Hhi Hdur). reflexivity.
    - rewrite Hstr. cbn [assert_string assert_float64 negb andb]. rewrite Hparse.
      rewrite bool_decide_eq_false_2 by (intros H; apply H; reflexivity).
      cbn [fst st set_state]. unfold Add. rewrite Hm.
      rewrite (adjusted_seconds f e margin Hf Hm1 Hlo Hhi Hdur). reflexivity. }
  rewrite E. cbn [token expires].
  assert (Hstart : now_grant w - Second < start <= now_grant w).
  { subst start. unfold Truncate, Second. cbn [Z.leb Z.compare].
    pose proof (Z.mod_pos_bound (now_grant w) 1000000000 eq_refl). lia. }
  unfold Second in *.
  repeat split; try lia.
Qed.

End HandlerProperties.

(** ** The properties at sample inputs *)

Lemma plugin_sample_New (margin : Z) :
  New id empty_os (config_with "http://as.example/token" "" "" margin false) "test"
  = Ok (plugin_sample margin).
Proof. reflexivity. Qed.

(** C1 at the body [{"access_token":"t0"}]: the request is forwarded with
    [Bearer t0] and no status is written. *)
Lemma C1_missing_expires_in_is_accepted_witness :
  let responseData : gmap string JSON := {[ "access_token" := JString "t0" ]} in
  let U := unmarshal_sample body_token_only responseData in
  let w := world_sample now_sample
             {| http.StatusCode := 200; http.Body := body_token_only |} in
  let '(c', evs) :=
    ServeHTTP U (parse_sample "" (S754_zero false)) indefinite_amd64
      (plugin_sample 0) w request_sample in
  token (st c') = "t0"
  /\ expires (st c') = 63847526400000000000 + Second
  /\ statuses evs = []
  /\ forwarded evs = [set_authorization request_sample "Bearer t0"].
Proof.
  intros responseData U w.
  apply (C1_missing_expires_in_is_accepted U _ _ (plugin_sample 0) w
           request_sample body_token_only responseData "t0");
    try reflexivity; intros x H; vm_compute in H; discriminate.
Defined.


(** C4 at two requests five seconds apart, the first of which fetches the
    token [t0] valid for an hour. *)
Lemma C4_valid_token_reused_witness :
  let body := body_token_expiry "3600" in
  let responseData : gmap string JSON :=
    {[ "access_token" := JString "t0"; "expires_in" := JNumber float_3600 ]} in
  let U := unmarshal_sample body responseData in
  let P := parse_sample "" (S754_zero false) in
  let agRes := {| http.StatusCode := 200; http.Body := body |} in
  let run0 := ServeHTTP U P indefinite_amd64 (plugin_sample 0)
                (world_sample now_sample agRes) request_sample in
  let w := world_sample (now_sample + 5 * Second) agRes in
  let run := ServeHTTP U P indefinite_amd64 (fst run0) w request_sample in
  now_check w <= expires (st (fst run0))
  /\ grants (snd run0 ++ snd run) = 1%nat
  /\ forwarded (snd run0 ++ snd run) =
     [set_authorization request_sample "Bearer t0";
      set_authorization request_sample "Bearer t0"].
Proof.
  intros body responseData U P agRes run0 w run.
  assert (Hvalid : now_check w <= expires (st (fst run0))).
  { vm_compute. discriminate. }
  split; [exact Hvalid|].
  destruct (C4_valid_token_reused U P indefinite_amd64 (fst run0) w
              request_sample Hvalid) as (_ & _ & _ & Htwo).
  apply (Htwo (plugin_sample 0) (world_sample now_sample agRes) request_sample
           (snd run0)).
  - reflexivity.
  - vm_compute. reflexivity.
  - vm_compute. discriminate.
Defined.

(** C5 as stated fails: with [expires_in] at 10^10 seconds and the margin
    1 the duration wraps around, and the stored expiry is not the truncated
    time plus 9999999999 seconds: it lies before the current time. *)
Lemma C5_counterexample :
  let body := body_token_expiry "10000000000" in
  let responseData : gmap string JSON :=
    {[ "access_token" := JString "t0"; "expires_in" := JNumber float_1e10 ]} in
  let U := unmarshal_sample body responseData in
  let w := world_sample now_sample
             {| http.StatusCode := 200; http.Body := body |} in
  let c := plugin_sample 0 in
  let c' := fst (ServeHTTP U (parse_sample "" (S754_zero false))
                   indefinite_amd64 c w request_sample) in
  float_floor float_1e10 = Some 10000000000
  /\ authGrantExpiresMarginSeconds c = 1
  /\ token (st c') = "t0"
  /\ expires (st c') <>
     Truncate (now_grant w) Second
     + Z.max 1 (10000000000 - authGrantExpiresMarginSeconds c) * Second
  /\ expires (st c') < now_grant w.
Proof.
  vm_compute. repeat split; discriminate.
Qed.

(** C5, amended, for [expires_in] at 3600 and the margin 10: the token
    expires 3590 seconds after the truncated time. *)
Lemma C5_expiry_after_grant_witness :
  let body := body_token_expiry "3600" in
  let responseData : gmap string JSON :=
    {[ "access_token" := JString "t0"; "expires_in" := JNumber float_3600 ]} in
  let U := unmarshal_sample body responseData in
  let w := world_sample now_sample
             {| http.StatusCode := 200; http.Body := body |} in
  let c := plugin_sample 10 in
  let c' := fst (ServeHTTP U (parse_sample "" (S754_zero false))
                   indefinite_amd64 c w request_sample) in
  authGrantExpiresMarginSeconds c = 10
  /\ token (st c') = "t0"
  /\ expires (st c') = 63847526400000000000 + 3590 * Second
  /\ 63847526400000000000 + Second <= expires (st c')
  /\ now_grant w < expires (st c')
  /\ (3600 <= 10 -> expires (st c') = 63847526400000000000 + Second).
Proof.
  intros body responseData U w c c'.
  refine (C5_expiry_after_grant U _ indefinite_amd64 id empty_os
            (config_with "http://as.example/token" "" "" 10 false) "test"
            c c w request_sample body responseData "t0" float_3600 3600
            (plugin_sample_New 10) eq_refl eq_refl eq_refl eq_refl _ _
            (or_introl _) eq_refl _ _ _);
    try reflexivity; vm_compute; discriminate.
Defined.

(** ** base64: decoding what was encoded *)

Lemma land_mul_pow2_small (a b k : Z) :
  0 <= k -> 0 <= b < 2 ^ k -> Z.land (a * 2 ^ k) b = 0.
Proof.
  intros Hk Hb. apply Z.bits_inj'. intros n Hn.
  rewrite Z.land_spec, Z.bits_0.
  destruct (Z.lt_ge_cases n k) as [H|H].
  - rewrite Z.mul_pow2_bits_low by lia. reflexivity.
  - rewrite <- (Z.mod_small b (2 ^ k)) by lia.
    rewrite Z.mod_pow2_bits_high by lia. apply andb_false_r.
Qed.

Lemma lor_mul_pow2_small (a b k : Z) :
  0 <= k -> 0 <= b < 2 ^ k -> Z.lor (a * 2 ^ k) b = a * 2 ^ k + b.
Proof.
  intros Hk Hb. rewrite <- Z.add_lor_land.
  rewrite land_mul_pow2_small by assumption. lia.
Qed.

Lemma sextet_spec (k val : Z) :
  0 <= k -> Z.land (Z.shiftr val k) 63 = (val / 2 ^ k) mod 64.
Proof.
  intros Hk. rewrite Z.shiftr_div_pow2 by lia.
  change 63 with (Z.ones 6). rewrite Z.land_ones by lia. reflexivity.
Qed.

Lemma byte_val_range (b : ascii) : 0 <= base64.byte_val b < 256.
Proof.
  unfold base64.byte_val. pose proof (N_ascii_bounded b). lia.
Qed.

Lemma byte_of_val (z : Z) (b : ascii) :
  z mod 256 = base64.byte_val b -> base64.byte_of z = b.
Proof.
  intros H. unfold base64.byte_of. change 255 with (Z.ones 8).
  rewrite Z.land_ones by lia. change (2 ^ 8) with 256. rewrite H.
  unfold base64.byte_val. rewrite N2Z.id. apply ascii_N_embedding.
Qed.

(** Three bytes packed in 24 bits. *)
Lemma pack3 (B0 B1 B2 : Z) :
  0 <= B0 < 256 -> 0 <= B1 < 256 -> 0 <= B2 < 256 ->
  Z.lor (Z.lor (Z.shiftl B0 16) (Z.shiftl B1 8)) B2 = B0 * 65536 + B1 * 256 + B2.
Proof.
  intros H0 H1 H2. rewrite !Z.shiftl_mul_pow2 by lia.
  rewrite (lor_mul_pow2_small B0 (B1 * 2 ^ 8) 16) by lia.
  replace (B0 * 2 ^ 16 + B1 * 2 ^ 8) with ((B0 * 256 + B1) * 2 ^ 8) by lia.
  rewrite lor_mul_pow2_small by lia. lia.
Qed.

(** Four six-bit values packed in 24 bits. *)
Lemma pack4 (s0 s1 s2 s3 : Z) :
  0 <= s0 < 64 -> 0 <= s1 < 64 -> 0 <= s2 < 64 -> 0 <= s3 < 64 ->
  Z.lor (Z.lor (Z.lor (Z.shiftl s0 18) (Z.shiftl s1 12)) (Z.shiftl s2 6)) s3
  = s0 * 262144 + s1 * 4096 + s2 * 64 + s3.
Proof.
  intros H0 H1 H2 H3. rewrite !Z.shiftl_mul_pow2 by lia.
  rewrite (lor_mul_pow2_small s0 (s1 * 2 ^ 12) 18) by lia.
  replace (s0 * 2 ^ 18 + s1 * 2 ^ 12) with ((s0 * 64 + s1) * 2 ^ 12) by lia.
  rewrite (lor_mul_pow2_small _ (s2 * 2 ^ 6) 12) by lia.
  replace ((s0 * 64 + s1) * 2 ^ 12 + s2 * 2 ^ 6)
    with ((s0 * 4096 + s1 * 64 + s2) * 2 ^ 6) by lia.
  rewrite (lor_mul_pow2_small _ s3 6) by lia. lia.
Qed.

(** The bytes [quantum_bytes] recovers from the six-bit values of three
    packed bytes. *)
Lemma quantum_bytes_of_sextets (b0 b1 b2 : ascii) :
  let val := base64.byte_val b0 * 65536 + base64.byte_val b1 * 256
             + base64.byte_val b2 in
  let s k := (val / 2 ^ k) mod 64 in
  base64.quantum_bytes [s 18; s 12; s 6; s 0] = [b0; b1; b2]
  /\ (base64.byte_val b2 = 0 -> base64.quantum_bytes [s 18; s 12; s 6] = [b0; b1])
  /\ (base64.byte_val b1 = 0 -> base64.byte_val b2 = 0 ->
      base64.quantum_bytes [s 18; s 12] = [b0]).
Proof.
  intros val s.
  pose proof (byte_val_range b0) as R0. pose proof (byte_val_range b1) as R1.
  pose proof (byte_val_range b2) as R2.
  assert (S18 : 0 <= s 18 < 64) by (apply Z.mod_pos_bound; lia).
  assert (S12 : 0 <= s 12 < 64) by (apply Z.mod_pos_bound; lia).
  assert (S6 : 0 <= s 6 < 64) by (apply Z.mod_pos_bound; lia).
  assert (S0 : 0 <= s 0 < 64) by (apply Z.mod_pos_bound; lia).
  assert (E : s 18 * 262144 + s 12 * 4096 + s 6 * 64 + s 0 = val).
  { subst s. cbv beta. change (2 ^ 18) with 262144. change (2 ^ 12) with 4096.
    change (2 ^ 6) with 64. change (2 ^ 0) with 1.
    subst val. Z.div_mod_to_equations. lia. }
  assert (B0 : (val / 2 ^ 16) mod 256 = base64.byte_val b0).
  { subst val. change (2 ^ 16) with 65536. Z.div_mod_to_equations. lia. }
  assert (B1 : (val / 2 ^ 8) mod 256 = base64.byte_val b1).
  { subst val. change (2 ^ 8) with 256. Z.div_mod_to_equations. lia. }
  assert (B2 : (val / 2 ^ 0) mod 256 = base64.byte_val b2).
  { subst val. change (2 ^ 0) with 1. Z.div_mod_to_equations. lia. }
  assert (Q : forall s2 s3, 0 <= s2 < 64 -> 0 <= s3 < 64 ->
              s 18 * 262144 + s 12 * 4096 + s2 * 64 + s3 = val ->
              let v := Z.lor (Z.lor (Z.lor (Z.shiftl (s 18) 18) (Z.shiftl (s 12) 12))
                                    (Z.shiftl s2 6)) s3 in
              base64.byte_of (Z.shiftr v 16) = b0
              /\ base64.byte_of (Z.shiftr v 8) = b1
              /\ base64.byte_of (Z.shiftr v 0) = b2).
  { intros s2 s3 H2 H3 Hv v. subst v. rewrite pack4 by assumption. rewrite Hv.
    rewrite !Z.shiftr_div_pow2 by lia.
    repeat split; apply byte_of_val; assumption. }
  split; [|split].
  - destruct (Q (s 6) (s 0) S6 S0 E) as (Q0 & Q1 & Q2).
    unfold base64.quantum_bytes. cbn [length nth]. rewrite Q0, Q1, Q2. reflexivity.
  - intros Z2.
    assert (s 0 = 0).
    { subst s. cbv beta. change (2 ^ 0) with 1. subst val.
      Z.div_mod_to_equations. lia. }
    destruct (Q (s 6) 0 S6 ltac:(lia) ltac:(lia)) as (Q0 & Q1 & _).
    unfold base64.quantum_bytes. cbn [length nth]. rewrite Q0, Q1. reflexivity.
  - intros Z1 Z2.
    assert (s 0 = 0).
    { subst s. cbv beta. change (2 ^ 0) with 1. subst val.
      Z.div_mod_to_equations. lia. }
    assert (s 6 = 0).
    { subst s. cbv beta. change (2 ^ 6) with 64. subst val.
      Z.div_mod_to_equations. lia. }
    destruct (Q 0 0 ltac:(lia) ltac:(lia) ltac:(lia)) as (Q0 & _ & _).
    unfold base64.quantum_bytes. cbn [length nth].
    rewrite Q0. reflexivity.
Qed.

Lemma land_63 (val : Z) : Z.land val 63 = (val / 2 ^ 0) mod 64.
Proof.
  change 63 with (Z.ones 6). rewrite Z.land_ones by lia.
  change (2 ^ 0) with 1. rewrite Z.div_1_r. reflexivity.
Qed.

Lemma byte_val_zero : base64.byte_val zero = 0.
Proof. reflexivity. Qed.

Section RoundTrip.

Variable enc : base64.Encoding.

Hypothesis alphabet_decodes :
  forall i, 0 <= i < 64 -> base64.decodeMap enc (base64.encode_at enc i) = Some i.

Hypothesis padding_outside :
  forall p, base64.padChar enc = Some p ->
            base64.decodeMap enc p = None /\ base64.is_newline p = false.

Local Abbreviation e := (base64.encode_at enc).
Local Abbreviation pad := (padding_chars enc).

Lemma decode_quantum4 (s0 s1 s2 s3 : Z) (rest : list ascii) (si : nat)
    (out : list ascii) :
  0 <= s0 < 64 -> 0 <= s1 < 64 -> 0 <= s2 < 64 -> 0 <= s3 < 64 ->
  base64.decode_loop enc (e s0 :: e s1 :: e s2 :: e s3 :: rest) si [] out =
  base64.decode_loop enc rest (S (S (S (S si)))) []
    (out ++ base64.quantum_bytes [s0; s1; s2; s3])%list.
Proof.
  intros H0 H1 H2 H3. cbn [base64.decode_loop].
  rewrite !alphabet_decodes by assumption. reflexivity.
Qed.

Lemma decode_tail2 (s0 s1 : Z) (si : nat) (out : list ascii) :
  0 <= s0 < 64 -> 0 <= s1 < 64 ->
  base64.decode_loop enc (e s0 :: e s1 :: pad ++ pad)%list si [] out =
  Ok (out ++ base64.quantum_bytes [s0; s1])%list.
Proof.
  intros H0 H1. unfold padding_chars. cbn [base64.decode_loop].
  rewrite !alphabet_decodes by assumption. cbn [app length Nat.eqb].
  destruct (base64.padChar enc) as [p|] eqn:Hp.
  - destruct (padding_outside p eq_refl) as [Hd Hn].
    cbn [app base64.decode_loop]. rewrite Hd, Hn.
    unfold base64.is_pad. rewrite Hp, Ascii.eqb_refl.
    unfold base64.decode_padding. cbn [length base64.skip_newlines].
    rewrite Hn. unfold base64.is_pad. rewrite Hp, Ascii.eqb_refl.
    reflexivity.
  - cbn [app base64.decode_loop]. rewrite Hp. reflexivity.
Qed.

Lemma decode_tail3 (s0 s1 s2 : Z) (si : nat) (out : list ascii) :
  0 <= s0 < 64 -> 0 <= s1 < 64 -> 0 <= s2 < 64 ->
  base64.decode_loop enc (e s0 :: e s1 :: e s2 :: pad) si [] out =
  Ok (out ++ base64.quantum_bytes [s0; s1; s2])%list.
Proof.
  intros H0 H1 H2. unfold padding_chars. cbn [base64.decode_loop].
  rewrite !alphabet_decodes by assumption. cbn [app length Nat.eqb].
  destruct (base64.padChar enc) as [p|] eqn:Hp.
  - destruct (padding_outside p eq_refl) as [Hd Hn].
    cbn [app base64.decode_loop]. rewrite Hd, Hn.
    unfold base64.is_pad. rewrite Hp, Ascii.eqb_refl.
    unfold base64.decode_padding. cbn [length base64.skip_newlines].
    reflexivity.
  - cbn [app base64.decode_loop]. rewrite Hp. reflexivity.
Qed.

Lemma encode_loop_3 (b0 b1 b2 : ascii) (rest : list ascii) :
  let val := base64.byte_val b0 * 65536 + base64.byte_val b1 * 256
             + base64.byte_val b2 in
  let s k := (val / 2 ^ k) mod 64 in
  base64.encode_loop enc (b0 :: b1 :: b2 :: rest) =
  e (s 18) :: e (s 12) :: e (s 6) :: e (s 0) :: base64.encode_loop enc rest.
Proof.
  intros val s. cbn [base64.encode_loop].
  rewrite pack3 by apply byte_val_range.
  rewrite !sextet_spec by lia. rewrite land_63. reflexivity.
Qed.

Lemma encode_loop_2 (b0 b1 : ascii) :
  let val := base64.byte_val b0 * 65536 + base64.byte_val b1 * 256
             + base64.byte_val zero in
  let s k := (val / 2 ^ k) mod 64 in
  base64.encode_loop enc [b0; b1] = e (s 18) :: e (s 12) :: e (s 6) :: pad.
Proof.
  intros val s. unfold padding_chars. cbn [base64.encode_loop].
  rewrite <- (Z.lor_0_r (Z.lor _ _)).
  rewrite pack3 by (try apply byte_val_range; lia).
  rewrite !sextet_spec by lia. reflexivity.
Qed.

Lemma encode_loop_1 (b0 : ascii) :
  let val := base64.byte_val b0 * 65536 + base64.byte_val zero * 256
             + base64.byte_val zero in
  let s k := (val / 2 ^ k) mod 64 in
  base64.encode_loop enc [b0] = (e (s 18) :: e (s 12) :: pad ++ pad)%list.
Proof.
  intros val s. unfold padding_chars. cbn [base64.encode_loop].
  rewrite !sextet_spec by lia.
  replace (Z.shiftl (base64.byte_val b0) 16) with val; [reflexivity|].
  subst val. rewrite Z.shiftl_mul_pow2 by lia. rewrite byte_val_zero. lia.
Qed.

Lemma decode_encode_loop (n : nat) : forall (bytes : list ascii) (si : nat)
    (out : list ascii),
  (length bytes <= n)%nat ->
  base64.decode_loop enc (base64.encode_loop enc bytes) si [] out
  = Ok (out ++ bytes)%list.
Proof.
  induction n as [|n IH]; intros bytes si out Hlen.
  - destruct bytes; [|cbn in Hlen; lia]. cbn. rewrite app_nil_r. reflexivity.
  - destruct bytes as [|b0 [|b1 [|b2 rest]]].
    + cbn. rewrite app_nil_r. reflexivity.
    + rewrite encode_loop_1.
      rewrite decode_tail2 by (apply Z.mod_pos_bound; lia).
      destruct (quantum_bytes_of_sextets b0 zero zero) as (_ & _ & ->);
        reflexivity.
    + rewrite encode_loop_2.
      rewrite decode_tail3 by (apply Z.mod_pos_bound; lia).
      destruct (quantum_bytes_of_sextets b0 b1 zero) as (_ & -> & _);
        reflexivity.
    + rewrite encode_loop_3.
      rewrite decode_quantum4 by (apply Z.mod_pos_bound; lia).
      destruct (quantum_bytes_of_sextets b0 b1 b2) as (-> & _ & _).
      rewrite IH by (cbn in Hlen; lia).
      rewrite <- app_assoc. reflexivity.
Qed.

Lemma encode_loop_chars (bytes : list ascii) :
  Forall (fun c => is_Some (base64.decodeMap enc c) \/ Some c = base64.padChar enc)
         (base64.encode_loop enc bytes).
Proof.
  assert (A : forall i, 0 <= i < 64 ->
                is_Some (base64.decodeMap enc (e i)) \/ Some (e i) = base64.padChar enc).
  { intros i Hi. left. rewrite alphabet_decodes by assumption. eauto. }
  assert (P : Forall (fun c => is_Some (base64.decodeMap enc c)
                               \/ Some c = base64.padChar enc) pad).
  { unfold padding_chars. destruct (base64.padChar enc); constructor; auto. }
  assert (G : forall n bytes, (length bytes <= n)%nat ->
                Forall (fun c => is_Some (base64.decodeMap enc c)
                                 \/ Some c = base64.padChar enc)
                       (base64.encode_loop enc bytes)).
  { induction n as [|n IH]; intros bs Hlen.
    - destruct bs; [constructor|cbn in Hlen; lia].
    - destruct bs as [|b0 [|b1 [|b2 rest]]].
      + constructor.
      + rewrite encode_loop_1.
        repeat (constructor; [apply A, Z.mod_pos_bound; lia|]).
        apply Forall_app; auto.
      + rewrite encode_loop_2.
        repeat (constructor; [apply A, Z.mod_pos_bound; lia|]). exact P.
      + rewrite encode_loop_3.
        repeat (constructor; [apply A, Z.mod_pos_bound; lia|]).
        apply IH. cbn in Hlen. lia. }
  exact (G _ bytes (le_n _)).
Qed.

Lemma DecodeString_EncodeToString (s : string) :
  base64.DecodeString enc (base64.EncodeToString enc s) = Ok s.
Proof.
  unfold base64.DecodeString, base64.EncodeToString.
  rewrite list_ascii_of_string_of_list_ascii.
  rewrite (decode_encode_loop _ _ 0%nat [] (le_n _)).
  cbn [app]. rewrite string_of_list_ascii_of_string. reflexivity.
Qed.

End RoundTrip.

Lemma StdEncoding_alphabet (i : Z) :
  0 <= i < 64 ->
  base64.decodeMap base64.StdEncoding (base64.encode_at base64.StdEncoding i) = Some i.
Proof.
  intros H. rewrite <- (Z2Nat.id i) by lia.
  assert (Hn : (Z.to_nat i < 64)%nat) by lia. revert Hn.
  generalize (Z.to_nat i). intros n Hn.
  do 64 (destruct n as [|n]; [reflexivity|]). lia.
Qed.

Lemma URLEncoding_alphabet (i : Z) :
  0 <= i < 64 ->
  base64.decodeMap base64.URLEncoding (base64.encode_at base64.URLEncoding i) = Some i.
Proof.
  intros H. rewrite <- (Z2Nat.id i) by lia.
  assert (Hn : (Z.to_nat i < 64)%nat) by lia. revert Hn.
  generalize (Z.to_nat i). intros n Hn.
  do 64 (destruct n as [|n]; [reflexivity|]). lia.
Qed.

Lemma padding_outside_alphabets (enc : base64.Encoding) (p : ascii) :
  enc = base64.StdEncoding \/ enc = base64.URLEncoding \/ enc = base64.RawURLEncoding ->
  base64.padChar enc = Some p ->
  base64.decodeMap enc p = None /\ base64.is_newline p = false.
Proof.
  intros [-> | [-> | ->]]; cbn [base64.padChar base64.StdEncoding
    base64.URLEncoding base64.RawURLEncoding]; intros [= <-]; try discriminate;
    split; reflexivity.
Qed.

(** The two alphabets agree where they overlap, and hold no line break. *)
Lemma alphabets_agree (c : ascii) (v : Z) :
  base64.decodeMap base64.StdEncoding c = Some v ->
  is_Some (base64.decodeMap base64.URLEncoding c) ->
  base64.decodeMap base64.URLEncoding c = Some v.
Proof.
  destruct c as [[] [] [] [] [] [] [] []]; vm_compute;
    intros H1 [x H2]; congruence.
Qed.

Lemma alphabet_no_newline (c : ascii) :
  is_Some (base64.decodeMap base64.URLEncoding c) \/ c = base64.StdPadding ->
  base64.is_newline c = false.
Proof.
  destruct c as [[] [] [] [] [] [] [] []]; vm_compute;
    intros [[x H] | H]; congruence.
Qed.

(** On text of the URL-safe alphabet, what the standard decoder accepts the
    URL-safe decoder accepts with the same bytes. *)
Lemma decode_loop_std_url (src : list ascii) :
  Forall (fun c => is_Some (base64.decodeMap base64.URLEncoding c)
                   \/ c = base64.StdPadding) src ->
  forall si dbuf out d,
    base64.decode_loop base64.StdEncoding src si dbuf out = Ok d ->
    base64.decode_loop base64.URLEncoding src si dbuf out = Ok d.
Proof.
  induction 1 as [|c rest Hc _ IH]; intros si dbuf out d.
  - exact (fun H => H).
  - cbn [base64.decode_loop].
    pose proof (alphabet_no_newline c Hc) as Hn. rewrite Hn.
    destruct (base64.decodeMap base64.StdEncoding c) as [v|] eqn:Hs.
    + destruct Hc as [Hu | ->]; [|discriminate].
      rewrite (alphabets_agree c v Hs Hu).
      destruct (_ =? _)%nat; apply IH.
    + destruct Hc as [[v Hu] | ->].
      * assert (Hp : base64.is_pad base64.StdEncoding c = false).
        { revert Hu Hs. clear.
          destruct c as [[] [] [] [] [] [] [] []]; vm_compute; congruence. }
        rewrite Hp. discriminate.
      * exact (fun H => H).
Qed.

(** On text without padding, what the padded URL-safe decoder accepts the
    unpadded one accepts with the same bytes. *)
Lemma decode_loop_url_raw (src : list ascii) :
  Forall (fun c => is_Some (base64.decodeMap base64.RawURLEncoding c)) src ->
  forall si dbuf out d,
    base64.decode_loop base64.URLEncoding src si dbuf out = Ok d ->
    base64.decode_loop base64.RawURLEncoding src si dbuf out = Ok d.
Proof.
  induction 1 as [|c rest Hc _ IH]; intros si dbuf out d.
  - cbn [base64.decode_loop]. destruct dbuf as [|? [|? ?]]; try exact (fun H => H);
      cbn [base64.padChar base64.URLEncoding]; discriminate.
  - cbn [base64.decode_loop].
    change (base64.decodeMap base64.URLEncoding c)
      with (base64.decodeMap base64.RawURLEncoding c).
    destruct Hc as [v ->].
    destruct (_ =? _)%nat; apply IH.
Qed.

Lemma DecodeString_ok_inv (enc : base64.Encoding) (s d : string) :
  base64.DecodeString enc s = Ok d ->
  exists bytes, base64.decode_loop enc (list_ascii_of_string s) 0 [] [] = Ok bytes
                /\ d = string_of_list_ascii bytes.
Proof.
  unfold base64.DecodeString.
  destruct (base64.decode_loop _ _ _ _ _) as [bytes|]; [|discriminate].
  intros [= <-]. eauto.
Qed.

(** ** More on strings and splitting *)

Lemma append_cons (c : ascii) (a b : string) :
  String c a ++ b = String c (a ++ b).
Proof. reflexivity. Qed.

Lemma append_nil (b : string) : "" ++ b = b.
Proof. reflexivity. Qed.

Lemma count_char_app (x : ascii) (a b : string) :
  count_char x (a ++ b) = (count_char x a + count_char x b)%nat.
Proof.
  induction a as [|c a IH]; [reflexivity|].
  rewrite append_cons. cbn [count_char]. rewrite IH. lia.
Qed.

Lemma length_app_cons (a b : string) (x : ascii) :
  String.length (a ++ String x b) = S (String.length a + String.length b).
Proof.
  induction a as [|c a IH]; [reflexivity|].
  rewrite append_cons. cbn [String.length]. rewrite IH. reflexivity.
Qed.

Lemma take_app (a b : string) : strings.take (String.length a) (a ++ b) = a.
Proof.
  induction a as [|c a IH].
  - rewrite append_nil. destruct b; reflexivity.
  - rewrite append_cons. cbn [String.length strings.take]. rewrite IH. reflexivity.
Qed.

Lemma drop_app_cons (a b : string) (x : ascii) :
  strings.drop (String.length a + 1) (a ++ String x b) = b.
Proof.
  induction a as [|c a IH]; [reflexivity|].
  rewrite append_cons. cbn [String.length strings.drop Nat.add]. exact IH.
Qed.

Lemma HasPrefix_char (x c : ascii) (s : string) :
  strings.HasPrefix (String c s) (String x "") = Ascii.eqb x c.
Proof. cbn [strings.HasPrefix]. apply andb_true_r. Qed.

(** Without the separator in it a string has no cut. *)
Lemma Index_absent (x : ascii) (s : string) :
  count_char x s = O -> strings.Index s (String x "") = None.
Proof.
  induction s as [|c s IH]; intros H; [reflexivity|].
  cbn [count_char] in H. cbn [strings.Index]. rewrite HasPrefix_char.
  rewrite Ascii.eqb_sym. destruct (Ascii.eqb c x); [discriminate|].
  rewrite IH by exact H. reflexivity.
Qed.

(** The first cut is where the separator first occurs. *)
Lemma Index_first (x : ascii) (a b : string) :
  count_char x a = O ->
  strings.Index (a ++ String x b) (String x "") = Some (String.length a).
Proof.
  induction a as [|c a IH]; intros H.
  - rewrite append_nil. cbn [strings.Index]. rewrite HasPrefix_char, Ascii.eqb_refl.
    reflexivity.
  - cbn [count_char] in H. rewrite append_cons. cbn [strings.Index].
    rewrite HasPrefix_char, Ascii.eqb_sym.
    destruct (Ascii.eqb c x); [discriminate|].
    rewrite IH by exact H. reflexivity.
Qed.

Lemma split_loop_absent (x : ascii) (k : nat) (s : string) :
  count_char x s = O -> strings.split_loop k s (String x "") = [s].
Proof.
  intros H. destruct k; [reflexivity|].
  cbn [strings.split_loop]. rewrite Index_absent by exact H. reflexivity.
Qed.

Lemma split_loop_first (x : ascii) (k : nat) (a b : string) :
  count_char x a = O ->
  strings.split_loop (S k) (a ++ String x b) (String x "") =
  a :: strings.split_loop k b (String x "").
Proof.
  intros H. cbn [strings.split_loop]. rewrite Index_first by exact H.
  rewrite take_app. cbn [String.length]. rewrite drop_app_cons. reflexivity.
Qed.

(** The three segments of [~source~payload]: the payload keeps its
    tildes. *)
Lemma SplitN_source (source payload : string) :
  count_char "~" source = O ->
  strings.SplitN ("~" ++ source ++ "~" ++ payload) "~" 3 = [""; source; payload].
Proof.
  intros H. unfold strings.SplitN.
  change ("~" ++ source ++ "~" ++ payload)
    with (String "~" (source ++ String "~" payload)).
  cbn [String.length]. rewrite length_app_cons. cbn [Nat.min Nat.pred].
  change (String "~" (source ++ String "~" payload))
    with ("" ++ String "~" (source ++ String "~" payload)).
  rewrite split_loop_first by reflexivity.
  rewrite split_loop_first by exact H. reflexivity.
Qed.

Lemma SplitN_base64_source (source payload : string) :
  count_char "~" source = O ->
  strings.SplitN ("~base64~" ++ source ++ "~" ++ payload) "~" 4
  = [""; "base64"; source; payload].
Proof.
  intros H. rewrite SplitN_base64.
  change (source ++ "~" ++ payload) with (source ++ String "~" payload).
  rewrite split_loop_first by exact H. reflexivity.
Qed.

(** A value with a single tilde-free segment after the first tilde has two
    parts. *)
Lemma SplitN_one_segment (r : string) (n : nat) :
  count_char "~" r = O ->
  strings.SplitN ("~" ++ r) "~" (S (S n)) = [""; r].
Proof.
  intros H. unfold strings.SplitN.
  change ("~" ++ r) with (String "~" r). cbn [String.length Nat.min Nat.pred].
  change (String "~" r) with ("" ++ String "~" r).
  rewrite split_loop_first by reflexivity.
  rewrite split_loop_absent by exact H. reflexivity.
Qed.

Lemma base64_prefix_absent (source rest : string) :
  count_char "~" source = O ->
  source <> "base64" ->
  strings.HasPrefix ("~" ++ source ++ "~" ++ rest) "~base64~" = false.
Proof.
  intros Hc Hne.
  destruct (strings.HasPrefix ("~" ++ source ++ "~" ++ rest) "~base64~") eqn:Hp;
    [|reflexivity].
  exfalso. apply HasPrefix_inv in Hp as [r Hr].
  injection Hr as Hr.
  assert (E : strings.Index (source ++ String "~" rest) "~"
              = strings.Index ("base64" ++ String "~" r) "~").
  { f_equal. exact Hr. }
  rewrite !Index_first in E by (exact Hc || reflexivity).
  injection E as E.
  assert (T : strings.take (String.length source) (source ++ String "~" rest)
              = strings.take 6 ("base64" ++ String "~" r)).
  { rewrite E. f_equal. exact Hr. }
  rewrite take_app in T. apply Hne. exact T.
Qed.

Lemma base64_prefix_absent_short (r : string) :
  count_char "~" r = O -> strings.HasPrefix ("~" ++ r) "~base64~" = false.
Proof.
  intros Hc.
  destruct (strings.HasPrefix ("~" ++ r) "~base64~") eqn:Hp; [|reflexivity].
  exfalso. apply HasPrefix_inv in Hp as [r' Hr].
  change ("~" ++ r) with (String "~" r) in Hr.
  change ("~base64~" ++ r') with (String "~" ("base64~" ++ r')) in Hr.
  injection Hr as Hr. subst r. rewrite count_char_app in Hc. discriminate Hc.
Qed.

Section ResolverCoverage.

Variable TrimSpace : string -> string.
Variable os : OS.

(** How a value with a tilde-free source segment is read. *)
Lemma fromFlexibleValue_source (source payload : string) :
  count_char "~" source = O ->
  source <> "base64" ->
  fromFlexibleValue TrimSpace os ("~" ++ source ++ "~" ++ payload)
  = resolve_source TrimSpace os source payload.
Proof.
  intros Hc Hne. unfold fromFlexibleValue.
  rewrite (base64_prefix_absent source payload Hc Hne).
  change (strings.HasPrefix ("~" ++ source ++ "~" ++ payload) "~") with true.
  cbn [negb Nat.add]. rewrite (SplitN_source source payload Hc).
  cbn -[resolve_source].
  destruct (resolve_source TrimSpace os source payload); reflexivity.
Qed.

(** X1: [~file~path] is the trimmed content of the file and [~env~name]
    the value of the variable, for every path and name (tildes in them
    included); an unreadable file and an unset variable are errors, and a
    variable set to the empty string is the empty value. *)
Theorem X1_file_and_env_sources :
  (forall path : string,
      fromFlexibleValue TrimSpace os ("~file~" ++ path) =
      match ReadFile os path with
      | inl err => Err (ErrReadFile err)
      | inr content => Ok (TrimSpace content)
      end)
  /\ (forall name : string,
        fromFlexibleValue TrimSpace os ("~env~" ++ name) =
        match LookupEnv os name with
        | None => Err (ErrEnvNotFound name)
        | Some value => Ok value
        end).
Proof.
  split; intros payload.
  - change ("~file~" ++ payload) with ("~" ++ "file" ++ "~" ++ payload).
    rewrite fromFlexibleValue_source by (reflexivity || discriminate).
    reflexivity.
  - change ("~env~" ++ payload) with ("~" ++ "env" ++ "~" ++ payload).
    rewrite fromFlexibleValue_source by (reflexivity || discriminate).
    reflexivity.
Qed.

(** X2: a value that starts with a tilde but has too few segments is
    rejected with the format error: [~r] with no further tilde, and
    [~base64~r] with no further tilde. *)
Theorem X2_too_few_segments (r : string) :
  count_char "~" r = O ->
  fromFlexibleValue TrimSpace os ("~" ++ r) = Err (ErrInvalidFormat ("~" ++ r))
  /\ fromFlexibleValue TrimSpace os ("~base64~" ++ r)
     = Err (ErrInvalidFormat ("~base64~" ++ r)).
Proof.
  intros Hc. split; unfold fromFlexibleValue.
  - rewrite (base64_prefix_absent_short r Hc).
    change (strings.HasPrefix ("~" ++ r) "~") with true.
    cbn [negb Nat.add]. rewrite (SplitN_one_segment r 1 Hc). reflexivity.
  - change (strings.HasPrefix ("~base64~" ++ r) "~") with true.
    change (strings.HasPrefix ("~base64~" ++ r) "~base64~") with true.
    cbn [negb Nat.add]. rewrite SplitN_base64.
    rewrite split_loop_absent by exact Hc. reflexivity.
Qed.

(** X3: a source segment other than [file], [env] and [direct] is
    rejected with the unknown-source error that names it, whatever the
    payload. *)
Theorem X3_unknown_source (source payload : string) :
  count_char "~" source = O ->
  source <> "file" -> source <> "env" -> source <> "direct" ->
  source <> "base64" ->
  fromFlexibleValue TrimSpace os ("~" ++ source ++ "~" ++ payload)
  = Err (ErrUnknownSource source).
Proof.
  intros Hc Hf He Hd Hb.
  rewrite (fromFlexibleValue_source source payload Hc Hb).
  unfold resolve_source.
  apply String.eqb_neq in Hf, He, Hd. rewrite Hf, He, Hd. reflexivity.
Qed.

Lemma resolve_source_error (source value : string) (e : error) :
  resolve_source TrimSpace os source value = Err e ->
  (exists msg, e = ErrReadFile msg)
  \/ (exists name, e = ErrEnvNotFound name)
  \/ (exists source, e = ErrUnknownSource source).
Proof.
  unfold resolve_source. intros H.
  split_cases H; injection H as <-; eauto.
Qed.

(** X4: the errors of [fromFlexibleValue] are the format error carrying
    the value, a file error, a missing variable, an unknown source, and,
    only for a value that starts with [~base64~], illegal base64 data.  In
    particular no index expression of the function is out of range. *)
Theorem X4_resolver_errors (fieldValue : string) (e : error) :
  fromFlexibleValue TrimSpace os fieldValue = Err e ->
  resolver_error fieldValue e /\ e <> PanicIndexOutOfRange.
Proof.
  unfold fromFlexibleValue, resolver_error.
  destruct (strings.HasPrefix fieldValue "~"); cbn [negb]; [|discriminate].
  destruct (strings.HasPrefix fieldValue "~base64~") eqn:Hb.
  - pose proof Hb as Hb'. apply HasPrefix_inv in Hb' as [r ->].
    rewrite SplitN_base64.
    generalize (strings.split_loop 1 r "~"). intros parts.
    destruct parts as [|source [|value parts]];
      try (intros [= <-]; split; [auto|discriminate]).
    cbn -[resolve_source decode_variants].
    destruct (resolve_source TrimSpace os source value) as [v|e'] eqn:Hr.
    + intros Hd. apply decode_variants_err in Hd as [n ->].
      split; [|discriminate]. do 4 right. eauto.
    + intros [= <-].
      destruct (resolve_source_error _ _ _ Hr) as [[m ->] | [[n ->] | [s ->]]];
        (split; [eauto 6|discriminate]).
  - generalize (strings.SplitN fieldValue "~" (1 + 1 + 1 + 0)). intros parts.
    destruct parts as [|enc [|source [|value parts]]];
      try (intros [= <-]; split; [auto|discriminate]).
    cbn -[resolve_source].
    destruct (resolve_source TrimSpace os source value) as [v|e'] eqn:Hr;
      cbn [mbind result_bind]; [discriminate|].
    intros [= <-].
    destruct (resolve_source_error _ _ _ Hr) as [[m ->] | [[n ->] | [s ->]]];
      (split; [eauto 6|discriminate]).
Qed.

End ResolverCoverage.

(** ** The resolver on encoded values *)

Lemma alphabet_decodes_variants (enc : base64.Encoding) (i : Z) :
  enc = base64.StdEncoding \/ enc = base64.URLEncoding \/ enc = base64.RawURLEncoding ->
  0 <= i < 64 ->
  base64.decodeMap enc (base64.encode_at enc i) = Some i.
Proof.
  intros [-> | [-> | ->]];
    [apply StdEncoding_alphabet | apply URLEncoding_alphabet
     | apply URLEncoding_alphabet].
Qed.

Lemma DecodeString_EncodeToString_variants (enc : base64.Encoding) (s : string) :
  enc = base64.StdEncoding \/ enc = base64.URLEncoding \/ enc = base64.RawURLEncoding ->
  base64.DecodeString enc (base64.EncodeToString enc s) = Ok s.
Proof.
  intros H. apply DecodeString_EncodeToString.
  - intros i. apply alphabet_decodes_variants. exact H.
  - intros p. apply padding_outside_alphabets. exact H.
Qed.

Lemma EncodeToString_url_chars (enc : base64.Encoding) (s : string) :
  enc = base64.URLEncoding \/ enc = base64.RawURLEncoding ->
  Forall (fun c => is_Some (base64.decodeMap base64.URLEncoding c)
                   \/ c = base64.StdPadding)
         (list_ascii_of_string (base64.EncodeToString enc s)).
Proof.
  intros H. unfold base64.EncodeToString.
  rewrite list_ascii_of_string_of_list_ascii.
  assert (H3 : enc = base64.StdEncoding \/ enc = base64.URLEncoding
               \/ enc = base64.RawURLEncoding) by tauto.
  eapply Forall_impl;
    [exact (encode_loop_chars enc
              (fun i => alphabet_decodes_variants enc i H3)
              (fun p => padding_outside_alphabets enc p H3) _)|].
  intros c [Hc | Hc]; [left|right].
  - destruct H as [-> | ->]; exact Hc.
  - destruct H as [-> | ->]; [|discriminate]. injection Hc as ->. reflexivity.
Qed.

Lemma EncodeToString_raw_chars (s : string) :
  Forall (fun c => is_Some (base64.decodeMap base64.RawURLEncoding c))
         (list_ascii_of_string (base64.EncodeToString base64.RawURLEncoding s)).
Proof.
  unfold base64.EncodeToString. rewrite list_ascii_of_string_of_list_ascii.
  assert (H3 : base64.RawURLEncoding = base64.StdEncoding
               \/ base64.RawURLEncoding = base64.URLEncoding
               \/ base64.RawURLEncoding = base64.RawURLEncoding) by tauto.
  eapply Forall_impl;
    [exact (encode_loop_chars base64.RawURLEncoding
              (fun i => alphabet_decodes_variants _ i H3)
              (fun p => padding_outside_alphabets _ p H3) _)|].
  intros c [Hc | Hc]; [exact Hc|discriminate].
Qed.

Lemma DecodeString_std_url (E d : string) :
  Forall (fun c => is_Some (base64.decodeMap base64.URLEncoding c)
                   \/ c = base64.StdPadding) (list_ascii_of_string E) ->
  base64.DecodeString base64.StdEncoding E = Ok d ->
  base64.DecodeString base64.URLEncoding E = Ok d.
Proof.
  intros HF H. apply DecodeString_ok_inv in H as (bytes & H & ->).
  unfold base64.DecodeString.
  rewrite (decode_loop_std_url _ HF _ _ _ _ H). reflexivity.
Qed.

Lemma DecodeString_url_raw (E d : string) :
  Forall (fun c => is_Some (base64.decodeMap base64.RawURLEncoding c))
         (list_ascii_of_string E) ->
  base64.DecodeString base64.URLEncoding E = Ok d ->
  base64.DecodeString base64.RawURLEncoding E = Ok d.
Proof.
  intros HF H. apply DecodeString_ok_inv in H as (bytes & H & ->).
  unfold base64.DecodeString.
  rewrite (decode_loop_url_raw _ HF _ _ _ _ H). reflexivity.
Qed.

(** The three attempts give back what any of the three encoders wrote. *)
Lemma decode_variants_EncodeToString (enc : base64.Encoding) (s : string) :
  enc = base64.StdEncoding \/ enc = base64.URLEncoding \/ enc = base64.RawURLEncoding ->
  decode_variants (base64.EncodeToString enc s) = Ok s.
Proof.
  intros H. pose proof (DecodeString_EncodeToString_variants enc s H) as RT.
  unfold decode_variants. destruct H as [-> | H].
  { rewrite RT. reflexivity. }
  pose proof (EncodeToString_url_chars enc s H) as HF.
  destruct (base64.DecodeString base64.StdEncoding _) as [d|] eqn:Hstd;
    cbn [is_err].
  - (* accepted by the standard decoder: the same bytes *)
    apply (DecodeString_std_url _ _ HF) in Hstd.
    destruct H as [-> | ->].
    + congruence.
    + apply (DecodeString_url_raw _ _ (EncodeToString_raw_chars s)) in Hstd.
      congruence.
  - destruct H as [-> | ->].
    + rewrite RT. reflexivity.
    + destruct (base64.DecodeString base64.URLEncoding _) as [d|] eqn:Hurl;
        cbn [is_err].
      * apply (DecodeString_url_raw _ _ (EncodeToString_raw_chars s)) in Hurl.
        congruence.
      * exact RT.
Qed.

Section EncodedValues.

Variable TrimSpace : string -> string.
Variable os : OS.

(** X5: behind the [~base64~] prefix, a source that yields the base64
    text of a byte string [s], written with the standard, the URL-safe or
    the unpadded URL-safe encoding, resolves to [s] itself. *)
Theorem X5_base64_value_round_trip
    (enc : base64.Encoding) (source payload s : string) :
  enc = base64.StdEncoding \/ enc = base64.URLEncoding \/ enc = base64.RawURLEncoding ->
  resolve_source TrimSpace os source payload = Ok (base64.EncodeToString enc s) ->
  fromFlexibleValue TrimSpace os ("~base64~" ++ source ++ "~" ++ payload) = Ok s.
Proof.
  intros Henc Hr.
  rewrite (fromFlexibleValue_base64 _ _ _ _ (resolve_source_ok _ _ _ _ _ Hr)).
  rewrite Hr. cbn [mbind result_bind].
  apply decode_variants_EncodeToString. exact Henc.
Qed.

End EncodedValues.

Lemma X5_base64_value_round_trip_witness :
  let os := {| ReadFile := fun _ => inl "no such file or directory";
               LookupEnv := fun n => if String.eqb n "BAR_VALUE"
                                     then Some "Pz8_Pj4-" else None |} in
  base64.EncodeToString base64.URLEncoding "???>>>" = "Pz8_Pj4-"
  /\ fromFlexibleValue id os "~base64~env~BAR_VALUE" = Ok "???>>>".
Proof.
  intros os. split; [reflexivity|].
  exact (X5_base64_value_round_trip id os base64.URLEncoding "env" "BAR_VALUE"
           "???>>>" (or_intror (or_introl eq_refl)) eq_refl).
Defined.

(** ** More on [queryEncode] and [New] *)

Lemma hex_digits_unreserved (c : ascii) :
  url.shouldEscape (url.hex_at (Z.shiftr (base64.byte_val c) 4)) = false
  /\ url.shouldEscape (url.hex_at (Z.land (base64.byte_val c) 15)) = false.
Proof.
  destruct c as [[] [] [] [] [] [] [] []]; split; reflexivity.
Qed.

Lemma escape_absent (x : ascii) (s : string) :
  url.shouldEscape x = true -> x <> "%"%char -> x <> "+"%char ->
  count_char x (url.escape s) = O.
Proof.
  intros Hx Hp Hq. induction s as [|c s IH]; [reflexivity|].
  cbn [url.escape].
  destruct (url.shouldEscape c) eqn:Hc.
  - destruct (Ascii.eqb c " ").
    + cbn [count_char]. rewrite IH.
      destruct (Ascii.eqb_spec "+"%char x) as [E|_]; [congruence|reflexivity].
    + destruct (hex_digits_unreserved c) as [H1 H2].
      cbn [count_char]. rewrite IH.
      destruct (Ascii.eqb_spec "%"%char x) as [E|_]; [congruence|].
      destruct (Ascii.eqb_spec (url.hex_at (Z.shiftr (base64.byte_val c) 4)) x)
        as [E|_]; [congruence|].
      destruct (Ascii.eqb_spec (url.hex_at (Z.land (base64.byte_val c) 15)) x)
        as [E|_]; [congruence|reflexivity].
  - cbn [count_char]. rewrite IH.
    destruct (Ascii.eqb_spec c x) as [E|_]; [congruence|reflexivity].
Qed.

Lemma escape_unreserved (s : string) :
  (forall x, url.shouldEscape x = true -> count_char x s = O) ->
  url.escape s = s.
Proof.
  induction s as [|c s IH]; intros H; [reflexivity|].
  cbn [url.escape].
  destruct (url.shouldEscape c) eqn:Hc.
  - specialize (H c Hc). cbn [count_char] in H.
    rewrite Ascii.eqb_refl in H. discriminate.
  - rewrite IH; [reflexivity|].
    intros x Hx. specialize (H x Hx). cbn [count_char] in H. lia.
Qed.

(** X6: without [skip], [queryEncode] writes only unreserved bytes
    (letters, digits, [-], [_], [.], [~]), [%] and [+]: no other byte, such
    as [:], [&] or [=], occurs in its result; a string of unreserved bytes
    is returned as it is, and with [skip] every string is. *)
Theorem X6_queryEncode_bytes (s : string) :
  (forall x, url.shouldEscape x = true -> x <> "%"%char -> x <> "+"%char ->
             count_char x (queryEncode s false) = O)
  /\ ((forall x, url.shouldEscape x = true -> count_char x s = O) ->
      queryEncode s false = s)
  /\ queryEncode s true = s.
Proof.
  unfold queryEncode, url.QueryEscape. split; [|split].
  - intros x. apply escape_absent.
  - apply escape_unreserved.
  - reflexivity.
Qed.

Section ConstructorCoverage.

Variable TrimSpace : string -> string.
Variable os : OS.

Lemma fromFlexibleField_inv (fieldName fieldValue : string) :
  match fromFlexibleField TrimSpace os fieldName fieldValue with
  | Ok r => fromFlexibleValue TrimSpace os fieldValue = Ok r
  | Err e => exists cause, fromFlexibleValue TrimSpace os fieldValue = Err cause
                           /\ e = ErrField fieldName fieldValue cause
  end.
Proof.
  unfold fromFlexibleField.
  destruct (fromFlexibleValue TrimSpace os fieldValue); eauto.
Qed.

(** A key that no header of the list resolves to keeps its entry. *)
Lemma resolve_headers_other (n : string) (headers : list Header) :
  Forall (fun h => fromFlexibleValue TrimSpace os (Name h) <> Ok n) headers ->
  forall m m', resolve_headers TrimSpace os headers m = Ok m' ->
               m' !! n = m !! n.
Proof.
  induction 1 as [|h rest Hh _ IH]; intros m m' H; cbn [resolve_headers] in H.
  - injection H as <-. reflexivity.
  - pose proof (fromFlexibleField_inv "header.name" (Name h)) as Hn.
    destruct (fromFlexibleField TrimSpace os "header.name" (Name h)) as [hdrName|];
      bind_in H; [|discriminate].
    destruct (fromFlexibleField TrimSpace os "header.value" (Value h)) as [hdrValue|];
      bind_in H; [|discriminate].
    rewrite (IH _ _ H). apply lookup_insert_ne. intros ->. exact (Hh Hn).
Qed.

(** The entry of a key is the value of the last header that resolves to
    it. *)
Lemma resolve_headers_last (n v : string) (before : list Header) (h : Header)
    (after : list Header) :
  fromFlexibleValue TrimSpace os (Name h) = Ok n ->
  fromFlexibleValue TrimSpace os (Value h) = Ok v ->
  Forall (fun h' => fromFlexibleValue TrimSpace os (Name h') <> Ok n) after ->
  forall m m',
    resolve_headers TrimSpace os (before ++ h :: after) m = Ok m' ->
    m' !! n = Some v.
Proof.
  intros Hn Hv Hafter. induction before as [|h0 before IH]; intros m m' H.
  - cbn [app resolve_headers] in H.
    rewrite (fromFlexibleField_ok _ _ "header.name" _ _ Hn) in H. bind_in H.
    rewrite (fromFlexibleField_ok _ _ "header.value" _ _ Hv) in H. bind_in H.
    rewrite (resolve_headers_other n after Hafter _ _ H).
    apply lookup_insert_eq.
  - cbn [app resolve_headers] in H.
    destruct (fromFlexibleField TrimSpace os "header.name" (Name h0));
      bind_in H; [|discriminate].
    destruct (fromFlexibleField TrimSpace os "header.value" (Value h0));
      bind_in H; [|discriminate].
    exact (IH _ _ H).
Qed.

Lemma resolve_headers_error (headers : list Header) :
  forall m e,
    resolve_headers TrimSpace os headers m = Err e ->
    exists h cause,
      In h headers
      /\ ((fromFlexibleValue TrimSpace os (Name h) = Err cause
           /\ e = ErrField "header.name" (Name h) cause)
          \/ (fromFlexibleValue TrimSpace os (Value h) = Err cause
              /\ e = ErrField "header.value" (Value h) cause)).
Proof.
  induction headers as [|h rest IH]; intros m e H; cbn [resolve_headers] in H;
    [discriminate|].
  pose proof (fromFlexibleField_inv "header.name" (Name h)) as Hn.
  destruct (fromFlexibleField TrimSpace os "header.name" (Name h)) as [hdrName|];
    bind_in H.
  - pose proof (fromFlexibleField_inv "header.value" (Value h)) as Hv.
    destruct (fromFlexibleField TrimSpace os "header.value" (Value h)) as [hdrValue|];
      bind_in H.
    + destruct (IH _ _ H) as (h' & cause & Hin & Hc).
      exists h', cause. split; [right; exact Hin|exact Hc].
    + injection H as <-. destruct Hv as (cause & Hc & ->).
      exists h, cause. split; [left; reflexivity|]. right. auto.
  - injection H as <-. destruct Hn as (cause & Hc & ->).
    exists h, cause. split; [left; reflexivity|]. left. auto.
Qed.

Lemma resolve_headers_total (headers : list Header) :
  Forall (fun h => header_fails TrimSpace os h = false) headers ->
  forall m, exists m', resolve_headers TrimSpace os headers m = Ok m'.
Proof.
  induction 1 as [|h rest Hh _ IH]; intros m; cbn [resolve_headers]; [eauto|].
  unfold header_fails in Hh. apply orb_false_iff in Hh as [Hn Hv].
  unfold fromFlexibleField.
  destruct (fromFlexibleValue TrimSpace os (Name h)); [|discriminate].
  destruct (fromFlexibleValue TrimSpace os (Value h)); [|discriminate].
  bind_in IH. cbn [mbind result_bind]. apply IH.
Qed.

(** What a successful [New] has done. *)
Lemma New_ok_inv (config : Config) (nm : string) (c : OutgoingOAuth2CC) :
  New TrimSpace os config nm = Ok c ->
  let agr := AuthGrantRequest config in
  exists hdrs user grantUrl,
    resolve_headers TrimSpace os (Headers agr) ∅ = Ok hdrs
    /\ fromFlexibleValue TrimSpace os (User agr) = Ok user
    /\ fromFlexibleValue TrimSpace os (URL agr) = Ok grantUrl
    /\ grantUrl <> ""
    /\ ((user = "" /\ authGrantHeaders c = hdrs)
        \/ (user <> ""
            /\ exists pass,
                 fromFlexibleValue TrimSpace os (Pass agr) = Ok pass
                 /\ authGrantHeaders c =
                    <["Authorization" :=
                        "Basic " ++ base64.EncodeToString base64.StdEncoding
                          (queryEncode user (BasicAuthSkipEncoding agr) ++ ":"
                           ++ queryEncode pass (BasicAuthSkipEncoding agr))]> hdrs))
    /\ name c = nm /\ trace c = Trace config
    /\ authGrantUrl c = grantUrl /\ authGrantScope c = Scope agr
    /\ authGrantExpiresMarginSeconds c = Z.max 1 (ExpiresMarginSeconds agr)
    /\ st c = {| token := ""; expires := 0 |}.
Proof.
  intros H agr. unfold New in H. fold agr in H.
  destruct (resolve_headers TrimSpace os (Headers agr) ∅) as [hdrs|];
    bind_in H; [|discriminate].
  pose proof (fromFlexibleField_inv "user" (User agr)) as Hu.
  destruct (fromFlexibleField TrimSpace os "user" (User agr)) as [user|];
    bind_in H; [|discriminate].
  pose proof (fromFlexibleField_inv "pass" (Pass agr)) as Hp.
  pose proof (fromFlexibleField_inv "url" (URL agr)) as Hg.
  exists hdrs, user.
  destruct (String.eqb_spec user "") as [Eu|Eu]; cbn [negb] in H.
  - bind_in H.
    destruct (fromFlexibleField TrimSpace os "url" (URL agr)) as [grantUrl|];
      bind_in H; [|discriminate].
    destruct (String.eqb_spec grantUrl "") as [|Eg]; [discriminate|].
    injection H as <-. exists grantUrl. cbn.
    rewrite maxInt_max. repeat split; auto.
  - destruct (fromFlexibleField TrimSpace os "pass" (Pass agr)) as [pass|];
      bind_in H; [|discriminate].
    destruct (fromFlexibleField TrimSpace os "url" (URL agr)) as [grantUrl|];
      bind_in H; [|discriminate].
    destruct (String.eqb_spec grantUrl "") as [|Eg]; [discriminate|].
    injection H as <-. exists grantUrl. cbn.
    rewrite maxInt_max. repeat split; eauto.
Qed.

(** X7: the credentials can be read back from the header [New] computes:
    the text after [Basic ] decodes, with the standard alphabet, to the
    encoded user, a colon and the encoded password; with the default
    encoding the first colon of that text is the separator, so the part
    before it is the encoded user even when user or password hold
    colons. *)
Theorem X7_basic_credentials_decode
    (config : Config) (nm : string) (c : OutgoingOAuth2CC) (user pass : string) :
  New TrimSpace os config nm = Ok c ->
  fromFlexibleValue TrimSpace os (User (AuthGrantRequest config)) = Ok user ->
  user <> "" ->
  fromFlexibleValue TrimSpace os (Pass (AuthGrantRequest config)) = Ok pass ->
  let skip := BasicAuthSkipEncoding (AuthGrantRequest config) in
  let credentials := queryEncode user skip ++ ":" ++ queryEncode pass skip in
  exists b64,
    authGrantHeaders c !! "Authorization" = Some ("Basic " ++ b64)
    /\ base64.DecodeString base64.StdEncoding b64 = Ok credentials
    /\ (skip = false ->
        strings.Index credentials ":"
        = Some (String.length (url.QueryEscape user))
        /\ strings.take (String.length (url.QueryEscape user)) credentials
           = url.QueryEscape user).
Proof.
  intros HN Hu Hne Hp skip credentials.
  destruct (New_ok_inv config nm c HN)
    as (hdrs & user' & grantUrl & _ & Hu' & _ & _ & Hh & _).
  rewrite Hu in Hu'. injection Hu' as <-.
  destruct Hh as [[E _] | (_ & pass' & Hp' & Hh)]; [contradiction|].
  rewrite Hp in Hp'. injection Hp' as <-.
  exists (base64.EncodeToString base64.StdEncoding credentials).
  split; [|split].
  - rewrite Hh. apply lookup_insert_eq.
  - apply DecodeString_EncodeToString_variants. auto.
  - intros Hs. subst credentials. rewrite Hs. unfold queryEncode.
    change (url.QueryEscape user ++ ":" ++ url.QueryEscape pass)
      with (url.QueryEscape user ++ String ":" (url.QueryEscape pass)).
    split.
    + apply Index_first. apply escape_absent; [reflexivity|discriminate..].
    + apply take_app.
Qed.

(** X8: a header the configuration lists is sent with the value of the
    last entry that resolves to its name; this holds for [Authorization]
    too when the user resolves to the empty string, so that a
    pre-computed header is used as it is. *)
Theorem X8_last_header_wins
    (config : Config) (nm : string) (c : OutgoingOAuth2CC)
    (before : list Header) (h : Header) (after : list Header) (n v : string) :
  New TrimSpace os config nm = Ok c ->
  Headers (AuthGrantRequest config) = (before ++ h :: after)%list ->
  fromFlexibleValue TrimSpace os (Name h) = Ok n ->
  fromFlexibleValue TrimSpace os (Value h) = Ok v ->
  Forall (fun h' => fromFlexibleValue TrimSpace os (Name h') <> Ok n) after ->
  n <> "Authorization"
  \/ fromFlexibleValue TrimSpace os (User (AuthGrantRequest config)) = Ok "" ->
  authGrantHeaders c !! n = Some v.
Proof.
  intros HN Hhs Hn Hv Hafter Hauth.
  destruct (New_ok_inv config nm c HN)
    as (hdrs & user & grantUrl & Hr & Hu & _ & _ & Hh & _).
  rewrite Hhs in Hr.
  pose proof (resolve_headers_last n v before h after Hn Hv Hafter _ _ Hr) as L.
  destruct Hh as [[_ ->] | (Hne & pass & _ & ->)]; [exact L|].
  destruct Hauth as [Hk | Hk].
  - rewrite lookup_insert_ne by congruence. exact L.
  - rewrite Hk in Hu. injection Hu as <-. contradiction.
Qed.

(** X9: when everything else resolves and the URL resolves to the empty
    string, [New] fails with the missing-URL error; so it does on the
    configuration [CreateConfig] returns. *)
Theorem X9_missing_url (config : Config) (nm : string) (user : string) :
  let agr := AuthGrantRequest config in
  Forall (fun h => header_fails TrimSpace os h = false) (Headers agr) ->
  fromFlexibleValue TrimSpace os (User agr) = Ok user ->
  (user <> "" -> is_err (fromFlexibleValue TrimSpace os (Pass agr)) = false) ->
  fromFlexibleValue TrimSpace os (URL agr) = Ok "" ->
  New TrimSpace os config nm = Err ErrMissingURL
  /\ New TrimSpace os CreateConfig nm = Err ErrMissingURL.
Proof.
  intros agr Hh Hu Hp Hg. split; [|reflexivity].
  unfold New. fold agr.
  destruct (resolve_headers_total _ Hh ∅) as [hdrs ->].
  unfold fromFlexibleField. rewrite Hu, Hg. cbn [mbind result_bind].
  destruct (String.eqb_spec user "") as [Eu|Eu]; cbn [negb mbind result_bind].
  - reflexivity.
  - specialize (Hp Eu).
    destruct (fromFlexibleValue TrimSpace os (Pass agr)); [|discriminate].
    reflexivity.
Qed.

(** X10: every error of [New] is the missing-URL error or names the field
    that did not resolve: it carries one of the names [header.name],
    [header.value], [user], [pass], [url], the raw value of that field in
    the configuration, and the resolver's error for that value. *)
Theorem X10_New_errors (config : Config) (nm : string) (e : error) :
  New TrimSpace os config nm = Err e ->
  e = ErrMissingURL
  \/ exists fieldName fieldValue cause,
       e = ErrField fieldName fieldValue cause
       /\ config_field config fieldName fieldValue
       /\ fromFlexibleValue TrimSpace os fieldValue = Err cause.
Proof.
  intros H. unfold New in H. set (agr := AuthGrantRequest config) in *.
  unfold config_field. fold agr.
  destruct (resolve_headers TrimSpace os (Headers agr) ∅) as [hdrs|e0] eqn:Hh;
    bind_in H.
  2:{ injection H as <-. right.
      destruct (resolve_headers_error _ _ _ Hh) as (h & cause & Hin & [[Hc ->]|[Hc ->]]).
      - exists "header.name", (Name h), cause. split; [reflexivity|].
        split; [|exact Hc]. left. eauto.
      - exists "header.value", (Value h), cause. split; [reflexivity|].
        split; [|exact Hc]. right. left. eauto. }
  pose proof (fromFlexibleField_inv "user" (User agr)) as Hu.
  destruct (fromFlexibleField TrimSpace os "user" (User agr)) as [user|];
    bind_in H.
  2:{ injection H as <-. right. destruct Hu as (cause & Hc & ->).
      exists "user", (User agr), cause. split; [reflexivity|].
      split; [|exact Hc]. right. right. left. auto. }
  pose proof (fromFlexibleField_inv "pass" (Pass agr)) as Hp.
  pose proof (fromFlexibleField_inv "url" (URL agr)) as Hg.
  assert (G : forall hdrs' : gmap string string,
            (grantUrl ← fromFlexibleField TrimSpace os "url" (URL agr);
             if String.eqb grantUrl "" then Err ErrMissingURL
             else Ok {| name := nm; trace := Trace config; authGrantUrl := grantUrl;
                        authGrantScope := Scope agr; authGrantHeaders := hdrs';
                        authGrantExpiresMarginSeconds :=
                          maxInt 1 (ExpiresMarginSeconds agr);
                        st := {| token := ""; expires := 0 |} |}) = Err e ->
            e = ErrMissingURL
            \/ exists fieldName fieldValue cause,
                 e = ErrField fieldName fieldValue cause
                 /\ ((fieldName = "header.name"
                      /\ exists h, In h (Headers agr) /\ fieldValue = Name h)
                     \/ (fieldName = "header.value"
                         /\ exists h, In h (Headers agr) /\ fieldValue = Value h)
                     \/ (fieldName = "user" /\ fieldValue = User agr)
                     \/ (fieldName = "pass" /\ fieldValue = Pass agr)
                     \/ (fieldName = "url" /\ fieldValue = URL agr))
                 /\ fromFlexibleValue TrimSpace os fieldValue = Err cause).
  { intros hdrs' G.
    destruct (fromFlexibleField TrimSpace os "url" (URL agr)) as [grantUrl|];
      bind_in G.
    - destruct (String.eqb grantUrl ""); [|discriminate].
      injection G as <-. left. reflexivity.
    - injection G as <-. right. destruct Hg as (cause & Hc & ->).
      exists "url", (URL agr), cause. split; [reflexivity|].
      split; [|exact Hc]. do 4 right. auto. }
  destruct (negb (String.eqb user "")).
  - destruct (fromFlexibleField TrimSpace os "pass" (Pass agr)) as [pass|];
      bind_in H.
    + exact (G _ H).
    + injection H as <-. right. destruct Hp as (cause & Hc & ->).
      exists "pass", (Pass agr), cause. split; [reflexivity|].
      split; [|exact Hc]. do 3 right. left. auto.
  - bind_in H. exact (G _ H).
Qed.

End ConstructorCoverage.

(** ** More on the request handler *)

Lemma bodies_app (a b : list event) :
  bodies (a ++ b) = (bodies a ++ bodies b)%list.
Proof. induction a as [|[] a IH]; cbn; rewrite ?IH; reflexivity. Qed.

Lemma stdout_app (a b : list event) :
  stdout (a ++ b) = (stdout a ++ stdout b)%list.
Proof. induction a as [|[] a IH]; cbn; rewrite ?IH; reflexivity. Qed.

Lemma stderr_app (a b : list event) :
  stderr (a ++ b) = (stderr a ++ stderr b)%list.
Proof. induction a as [|[] a IH]; cbn; rewrite ?IH; reflexivity. Qed.

Lemma serveError_output (w : World) (msg : string) (status : Z) :
  stdout (serveError w msg status) = (if rw_Write_fails w then [msg] else [])
  /\ stderr (serveError w msg status) = ["outgoing-oauth2-cc: error: " ++ msg ++ nl].
Proof. unfold serveError. destruct (rw_Write_fails w); split; reflexivity. Qed.

Lemma trace_response_output (c : OutgoingOAuth2CC) (body : string) :
  bodies (trace_response c body) = []
  /\ stderr (trace_response c body) = []
  /\ (trace c = false -> trace_response c body = []).
Proof.
  unfold trace_response. destruct (trace c); repeat split; discriminate.
Qed.

Lemma set_state_back (c : OutgoingOAuth2CC) (s : state) :
  set_state (set_state c s) (st c) = c.
Proof. destruct c. reflexivity. Qed.


Lemma serveError_grants w msg status : grants (serveError w msg status) = O.
Proof. apply serveError_events. Qed.
Lemma serveError_forwarded w msg status : forwarded (serveError w msg status) = [].
Proof. apply serveError_events. Qed.
Lemma serveError_statuses w msg status : statuses (serveError w msg status) = [status].
Proof. apply serveError_events. Qed.
Lemma serveError_bodies w msg status :
  bodies (serveError w msg status) = [http.StatusText status ++ ": " ++ msg].
Proof. apply serveError_events. Qed.
Lemma serveError_stderr w msg status :
  stderr (serveError w msg status) = ["outgoing-oauth2-cc: error: " ++ msg ++ nl].
Proof. apply serveError_output. Qed.
Lemma trace_response_grants c body : grants (trace_response c body) = O.
Proof. apply trace_response_events. Qed.
Lemma trace_response_forwarded c body : forwarded (trace_response c body) = [].
Proof. apply trace_response_events. Qed.
Lemma trace_response_statuses c body : statuses (trace_response c body) = [].
Proof. apply trace_response_events. Qed.
Lemma trace_response_bodies c body : bodies (trace_response c body) = [].
Proof. apply trace_response_output. Qed.
Lemma trace_response_stderr c body : stderr (trace_response c body) = [].
Proof. apply trace_response_output. Qed.

Create Rewrite HintDb events.
#[local] Hint Rewrite grants_app forwarded_app statuses_app bodies_app
  stdout_app stderr_app
  serveError_grants serveError_forwarded serveError_statuses serveError_bodies
  serveError_stderr
  trace_response_grants trace_response_forwarded trace_response_statuses
  trace_response_bodies trace_response_stderr : events.

(** The projections of a run, pushed through the events. *)
Ltac project_events :=
  unfold serveInternalError;
  cbn [grants statuses bodies forwarded stdout stderr];
  autorewrite with events;
  cbn [grants statuses bodies forwarded stdout stderr app].

Section HandlerCoverage.

Variable Unmarshal : string -> string + gmap string JSON.
Variable ParseFloat : string -> spec_float * option string.
Variable int64_indefinite : spec_float -> Z.

(** The two ways [read_grant] ends. *)
Lemma read_grant_inv (c : OutgoingOAuth2CC) (w : World) (body : string) :
  (exists msg,
      read_grant Unmarshal ParseFloat int64_indefinite c w body
      = (None, serveInternalError w msg))
  \/ (exists responseData accessToken expiresAt line,
        Unmarshal body = inr responseData
        /\ responseData !! "access_token" = Some (JString accessToken)
        /\ read_grant Unmarshal ParseFloat int64_indefinite c w body
           = (Some (set_state c {| token := accessToken; expires := expiresAt |}),
              if trace c then [EvStdout line] else [])).
Proof.
  unfold read_grant.
  destruct (Unmarshal body) as [err|responseData]; [left; eauto|].
  destruct (responseData !! "access_token") as [[| | |accessToken| |]|] eqn:Htok;
    cbn [assert_string negb]; try (left; eauto; fail).
  destruct (assert_string (responseData !! "expires_in")) as [expiresInStr okStr].
  destruct (assert_float64 (responseData !! "expires_in")) as [expiresInFlt okFlt].
  destruct (if negb okFlt && okStr then _ else _) as [flt err].
  destruct (negb okFlt && bool_decide (err <> None)); [left; eauto|].
  right. exists responseData, accessToken. eauto.
Qed.

(** Every way a call of [ServeHTTP] can go. *)
Lemma ServeHTTP_cases (c : OutgoingOAuth2CC) (w : World) (req : http.Request) :
  let run := ServeHTTP Unmarshal ParseFloat int64_indefinite c w req in
  let g := grant_request c in
  (After (now_check w) (expires (st c)) = false /\ run = (c, forward c req))
  \/ (After (now_check w) (expires (st c)) = true
      /\ ((exists err,
             NewRequest w (authGrantUrl c) = Some err
             /\ run = (c, serveInternalError w ("new-request: " ++ err)))
          \/ (NewRequest w (authGrantUrl c) = None
              /\ ((exists err,
                     Do w g = inl err
                     /\ run = (c, EvDo g :: serveInternalError w
                                               ("do-request: " ++ err)))
                  \/ (exists agRes,
                        Do w g = inr agRes
                        /\ http.StatusCode agRes <> 200
                        /\ run = (c, EvDo g :: trace_response c (http.Body agRes)
                                     ++ serveError w
                                          ("status-code: "
                                           ++ itoa (http.StatusCode agRes))
                                          (http.StatusCode agRes))%list)
                  \/ (exists agRes msg,
                        Do w g = inr agRes
                        /\ http.StatusCode agRes = 200
                        /\ read_grant Unmarshal ParseFloat int64_indefinite c w
                             (http.Body agRes)
                           = (None, serveInternalError w msg)
                        /\ run = (c, EvDo g :: trace_response c (http.Body agRes)
                                     ++ serveInternalError w msg)%list)
                  \/ (exists agRes responseData accessToken expiresAt line,
                        Do w g = inr agRes
                        /\ http.StatusCode agRes = 200
                        /\ Unmarshal (http.Body agRes) = inr responseData
                        /\ responseData !! "access_token"
                           = Some (JString accessToken)
                        /\ let c' := set_state c {| token := accessToken;
                                                    expires := expiresAt |} in
                           run = (c', EvDo g :: trace_response c (http.Body agRes)
                                      ++ (if trace c then [EvStdout line] else [])
                                      ++ forward c' req)%list))))).
Proof.
  intros run g. subst run g. unfold ServeHTTP.
  destruct (After (now_check w) (expires (st c))); [right|left; auto].
  split; [reflexivity|].
  destruct (NewRequest w (authGrantUrl c)) as [err|]; [left; eauto|].
  right. split; [reflexivity|].
  destruct (Do w (grant_request c)) as [err|agRes]; [left; eauto|].
  right. destruct (Z.eqb_spec (http.StatusCode agRes) 200) as [E|E]; cbn [negb].
  - right.
    destruct (read_grant_inv c w (http.Body agRes))
      as [(msg & Hr) | (m & tok & exp & line & HU & Htok & Hr)]; rewrite Hr.
    + left. exists agRes, msg. repeat split; assumption.
    + right. exists agRes, m, tok, exp, line. repeat split; assumption.
  - left. exists agRes. auto.
Qed.


(** X12: when the token has expired and the token request cannot be built
    or sent, or the 200 response is not a JSON object or holds no
    [access_token] string, the caller gets status 500 with the text
    [Internal Server Error: ] and the reason; the plugin keeps its state
    and the request is not forwarded.  A request that cannot be built is
    not sent. *)
Theorem X12_local_failures
    (c : OutgoingOAuth2CC) (w : World) (req : http.Request) :
  After (now_check w) (expires (st c)) = true ->
  let run := ServeHTTP Unmarshal ParseFloat int64_indefinite c w req in
  (forall err, NewRequest w (authGrantUrl c) = Some err ->
               answers_500 c (fst run) (snd run) ("new-request: " ++ err)
               /\ grants (snd run) = O)
  /\ (NewRequest w (authGrantUrl c) = None ->
      (forall err, Do w (grant_request c) = inl err ->
                   answers_500 c (fst run) (snd run) ("do-request: " ++ err))
      /\ (forall body,
            Do w (grant_request c)
            = inr {| http.StatusCode := 200; http.Body := body |} ->
            (forall err, Unmarshal body = inl err ->
                         answers_500 c (fst run) (snd run) ("unmarshall: " ++ err))
            /\ (forall responseData,
                  Unmarshal body = inr responseData ->
                  (forall s, responseData !! "access_token" <> Some (JString s)) ->
                  answers_500 c (fst run) (snd run) "access_token not found"))).
Proof.
  intros Hexp run. unfold answers_500. split.
  { intros err Hnew. subst run. unfold ServeHTTP. rewrite Hexp, Hnew.
    cbn [fst snd]. project_events. repeat split. }
  intros Hnew. split.
  { intros err Hdo. subst run. unfold ServeHTTP. rewrite Hexp, Hnew, Hdo.
    cbn [fst snd]. project_events. repeat split. }
  intros body Hdo. subst run.
  rewrite (ServeHTTP_200 _ _ _ c w req body Hexp Hnew Hdo). unfold read_grant.
  split.
  { intros err HU. rewrite HU. cbn [fst snd]. project_events. repeat split. }
  intros responseData HU Htok. rewrite HU.
  assert (E : assert_string (responseData !! "access_token") = ("", false)).
  { destruct (responseData !! "access_token") as [[| | |s| |]|]; try reflexivity.
    destruct (Htok s). reflexivity. }
  rewrite E. cbn [negb fst snd]. project_events. repeat split.
Qed.

(** X13: the request handed to the next handler is the incoming one with
    its [Authorization] header replaced by the single value
    [Bearer <stored token>]: method, URI, body and every other header are
    untouched. *)
Theorem X13_only_authorization_changes
    (c : OutgoingOAuth2CC) (w : World) (req : http.Request) :
  let '(c', evs) := ServeHTTP Unmarshal ParseFloat int64_indefinite c w req in
  forall r, In r (forwarded evs) ->
    http.Method r = http.Method req
    /\ http.RequestURI r = http.RequestURI req
    /\ http.Body_of r = http.Body_of req
    /\ http.Header_of r !! "Authorization" = Some ["Bearer " ++ token (st c')]
    /\ forall k, k <> "Authorization" ->
                 http.Header_of r !! k = http.Header_of req !! k.
Proof.
  assert (F : forall c' r,
             In r (forwarded (forward c' req)) ->
             http.Method r = http.Method req
             /\ http.RequestURI r = http.RequestURI req
             /\ http.Body_of r = http.Body_of req
             /\ http.Header_of r !! "Authorization"
                = Some ["Bearer " ++ token (st c')]
             /\ forall k, k <> "Authorization" ->
                          http.Header_of r !! k = http.Header_of req !! k).
  { intros c' r [<- | []]. unfold set_authorization, http.Header_Set.
    cbn [http.Method http.RequestURI http.Body_of http.Header_of].
    repeat split.
    - apply lookup_insert_eq.
    - intros k Hk. apply lookup_insert_ne. congruence. }
  destruct (ServeHTTP_cases c w req)
    as [[_ ->] | (_ & [(err & _ & ->) | (_ & [(err & _ & ->)
         | [(agRes & _ & _ & ->) | [(agRes & msg & _ & _ & _ & ->)
         | (agRes & m & tok & exp & line & _ & _ & _ & _ & ->)]]])])].
  - apply F.
  - project_events. intros r [].
  - project_events. intros r [].
  - project_events. intros r [].
  - project_events. intros r [].
  - intros r. project_events.
    replace (forwarded (if trace c then [EvStdout line] else [])) with
      (@nil http.Request) by (destruct (trace c); reflexivity).
    apply F.
Qed.

(** X14: an [expires_in] given as a string that parses as a number is
    treated as that number: two responses that differ only in this
    representation leave the same plugin, the same forwarded request and
    the same answer to the caller. *)
Theorem X14_numeric_string_as_number
    (c : OutgoingOAuth2CC) (w1 w2 : World) (req : http.Request)
    (body1 body2 : string) (responseData : gmap string JSON)
    (s : string) (f : spec_float) :
  After (now_check w1) (expires (st c)) = true ->
  After (now_check w2) (expires (st c)) = true ->
  now_grant w1 = now_grant w2 ->
  NewRequest w1 (authGrantUrl c) = None ->
  NewRequest w2 (authGrantUrl c) = None ->
  Do w1 (grant_request c) = inr {| http.StatusCode := 200; http.Body := body1 |} ->
  Do w2 (grant_request c) = inr {| http.StatusCode := 200; http.Body := body2 |} ->
  Unmarshal body1 = inr (<["expires_in" := JString s]> responseData) ->
  Unmarshal body2 = inr (<["expires_in" := JNumber f]> responseData) ->
  ParseFloat s = (f, None) ->
  let run1 := ServeHTTP Unmarshal ParseFloat int64_indefinite c w1 req in
  let run2 := ServeHTTP Unmarshal ParseFloat int64_indefinite c w2 req in
  fst run1 = fst run2
  /\ forwarded (snd run1) = forwarded (snd run2)
  /\ statuses (snd run1) = statuses (snd run2)
  /\ bodies (snd run1) = bodies (snd run2).
Proof.
  intros He1 He2 Hnow Hn1 Hn2 Hd1 Hd2 HU1 HU2 HP run1 run2. subst run1 run2.
  rewrite (ServeHTTP_200 _ _ _ c w1 req body1 He1 Hn1 Hd1).
  rewrite (ServeHTTP_200 _ _ _ c w2 req body2 He2 Hn2 Hd2).
  unfold read_grant. rewrite HU1, HU2.
  rewrite !(lookup_insert_ne _ "expires_in" "access_token") by discriminate.
  rewrite !lookup_insert_eq.
  destruct (assert_string (responseData !! "access_token")) as [accessToken []];
    cbn [negb].
  - cbn [assert_string assert_float64 negb andb]. rewrite HP.
    rewrite bool_decide_eq_false_2 by (intros H; apply H; reflexivity).
    rewrite Hnow. cbn [fst snd]. project_events.
    destruct (trace c); repeat split.
  - cbn [fst snd]. project_events. repeat split.
Qed.

(** X15: with [trace] off and a caller that can be written to, nothing is
    written to standard output, so neither the response of the
    authorization server nor the token is logged; a forwarded request
    writes nothing to standard error, and a request that is not forwarded
    writes one line there. *)
Theorem X15_output_streams
    (c : OutgoingOAuth2CC) (w : World) (req : http.Request) :
  let '(c', evs) := ServeHTTP Unmarshal ParseFloat int64_indefinite c w req in
  (trace c = false -> rw_Write_fails w = false -> stdout evs = [])
  /\ (forwarded evs <> [] -> stderr evs = [])
  /\ (forwarded evs = [] -> exists line, stderr evs = [line]).
Proof.
  assert (S : forall msg status, trace c = false -> rw_Write_fails w = false ->
                stdout (serveError w msg status) = []).
  { intros msg status _ Hw. unfold serveError. rewrite Hw. reflexivity. }
  destruct (ServeHTTP_cases c w req)
    as [[_ ->] | (_ & [(err & _ & ->) | (_ & [(err & _ & ->)
         | [(agRes & _ & _ & ->) | [(agRes & msg & _ & _ & _ & ->)
         | (agRes & m & tok & exp & line & _ & _ & _ & _ & ->)]]])])].
  - repeat split; try reflexivity. discriminate.
  - project_events. repeat split; eauto. contradiction.
  - project_events. repeat split; eauto. contradiction.
  - project_events. split; [|split; [contradiction|eauto]].
    intros Ht Hw. rewrite (S _ _ Ht Hw).
    destruct (trace_response_output c (http.Body agRes)) as (_ & _ & ->);
      [reflexivity|exact Ht].
  - project_events. split; [|split; [contradiction|eauto]].
    intros Ht Hw. rewrite (S _ _ Ht Hw).
    destruct (trace_response_output c (http.Body agRes)) as (_ & _ & ->);
      [reflexivity|exact Ht].
  - project_events. split; [|split].
    + intros Ht Hw.
      destruct (trace_response_output c (http.Body agRes)) as (_ & _ & ->);
        [|exact Ht].
      rewrite Ht. reflexivity.
    + intros _. destruct (trace c); reflexivity.
    + destruct (trace c); discriminate.
Qed.

(** X16: a failed attempt is not remembered: when a request found the
    token expired and was not forwarded, the next request that arrives no
    earlier asks the authorization server again. *)
Theorem X16_failed_grant_is_retried
    (c c1 : OutgoingOAuth2CC) (w1 w2 : World) (req1 req2 : http.Request)
    (evs1 : list event) :
  After (now_check w1) (expires (st c)) = true ->
  ServeHTTP Unmarshal ParseFloat int64_indefinite c w1 req1 = (c1, evs1) ->
  forwarded evs1 = [] ->
  now_check w1 <= now_check w2 ->
  NewRequest w2 (authGrantUrl c1) = None ->
  c1 = c
  /\ grants (snd (ServeHTTP Unmarshal ParseFloat int64_indefinite c1 w2 req2))
     = 1%nat.
Proof.
  intros Hexp Hrun Hfw Hlater Hnew.
  assert (E : c1 = c).
  { destruct (ServeHTTP_cases c w1 req1)
      as [[Hv _] | (_ & [(err & _ & H) | (_ & [(err & _ & H)
           | [(agRes & _ & _ & H) | [(agRes & msg & _ & _ & _ & H)
           | (agRes & m & tok & exp & line & _ & _ & _ & _ & H)]]])])];
      try congruence.
    rewrite Hrun in H. injection H as -> ->.
    revert Hfw. project_events. destruct (trace c); discriminate. }
  split; [exact E|]. subst c1.
  assert (Hexp2 : After (now_check w2) (expires (st c)) = true).
  { unfold After in *. apply Z.gtb_lt. apply Z.gtb_lt in Hexp. lia. }
  destruct (ServeHTTP_cases c w2 req2)
    as [[Hv _] | (_ & [(err & H & _) | (_ & [(err & _ & ->)
         | [(agRes & _ & _ & ->) | [(agRes & msg & _ & _ & _ & ->)
         | (agRes & m & tok & exp & line & _ & _ & _ & _ & ->)]]])])];
    try congruence; cbn [snd]; project_events; try reflexivity.
  destruct (trace c); reflexivity.
Qed.

(** X17: a request that found the token expired is forwarded only with a
    token the authorization server has just sent: the token request was
    built and sent, the answer had status 200 and a JSON object whose
    [access_token] is the string now stored and used as bearer. *)
Theorem X17_forwarded_token_was_granted
    (c c' : OutgoingOAuth2CC) (w : World) (req : http.Request)
    (evs : list event) :
  After (now_check w) (expires (st c)) = true ->
  ServeHTTP Unmarshal ParseFloat int64_indefinite c w req = (c', evs) ->
  forwarded evs <> [] ->
  exists agRes responseData,
    NewRequest w (authGrantUrl c) = None
    /\ Do w (grant_request c) = inr agRes
    /\ http.StatusCode agRes = 200
    /\ Unmarshal (http.Body agRes) = inr responseData
    /\ responseData !! "access_token" = Some (JString (token (st c')))
    /\ forwarded evs = [set_authorization req ("Bearer " ++ token (st c'))]
    /\ grants evs = 1%nat.
Proof.
  intros Hexp Hrun Hfw.
  destruct (ServeHTTP_cases c w req)
    as [[Hv _] | (_ & [(err & _ & H) | (Hnew & [(err & _ & H)
         | [(agRes & _ & _ & H) | [(agRes & msg & _ & _ & _ & H)
         | (agRes & m & tok & exp & line & Hdo & H200 & HU & Htok & H)]]])])];
    try congruence; rewrite Hrun in H; injection H as -> ->;
    try (exfalso; revert Hfw; project_events; congruence).
  exists agRes, m. repeat split; try assumption.
  - project_events. destruct (trace c); reflexivity.
  - project_events. destruct (trace c); reflexivity.
Qed.

(** X20: a 200 response whose [expires_in] is a string that does not
    parse as a number is answered with status 500 and the text
    [expires_in not found or not parseable]; the token it carries is not
    stored and the request is not forwarded. *)
Theorem X20_unparseable_expires_in
    (c : OutgoingOAuth2CC) (w : World) (req : http.Request) (body : string)
    (responseData : gmap string JSON) (accessToken s err : string)
    (f : spec_float) :
  After (now_check w) (expires (st c)) = true ->
  NewRequest w (authGrantUrl c) = None ->
  Do w (grant_request c) = inr {| http.StatusCode := 200; http.Body := body |} ->
  Unmarshal body = inr responseData ->
  responseData !! "access_token" = Some (JString accessToken) ->
  responseData !! "expires_in" = Some (JString s) ->
  ParseFloat s = (f, Some err) ->
  let run := ServeHTTP Unmarshal ParseFloat int64_indefinite c w req in
  answers_500 c (fst run) (snd run) "expires_in not found or not parseable"
  /\ grants (snd run) = 1%nat.
Proof.
  intros Hexp Hnew Hdo HU Htok Hs Hp run. subst run.
  rewrite (ServeHTTP_200 _ _ _ c w req body Hexp Hnew Hdo).
  rewrite (read_grant_unparseable _ _ _ c w body responseData accessToken s err f
             HU Htok Hs Hp).
  cbn [fst snd]. unfold answers_500. project_events. repeat split.
Qed.

End HandlerCoverage.

(** X19: the form sent with the token request is
    [grant_type=client_credentials] when no scope is configured; with a
    scope it has exactly one more field: whatever bytes the scope holds,
    the form has one [&] and two [=]. *)
Theorem X19_grant_form_fields (scope : string) :
  grant_form "" = "grant_type=client_credentials"
  /\ count_char "&" (grant_form scope) = (if String.eqb scope "" then 0 else 1)%nat
  /\ count_char "=" (grant_form scope) = (if String.eqb scope "" then 1 else 2)%nat.
Proof.
  split; [reflexivity|]. unfold grant_form.
  destruct (String.eqb scope ""); cbn [negb]; [split; reflexivity|].
  change ("grant_type=client_credentials" ++ "&scope=" ++ url.QueryEscape scope)
    with ("grant_type=client_credentials&scope=" ++ url.QueryEscape scope).
  rewrite !count_char_app. unfold url.QueryEscape.
  rewrite !escape_absent by (reflexivity || discriminate).
  split; reflexivity.
Qed.

Section FirstRequest.

Variable TrimSpace : string -> string.
Variable os : OS.
Variable Unmarshal : string -> string + gmap string JSON.
Variable ParseFloat : string -> spec_float * option string.
Variable int64_indefinite : spec_float -> Z.


End FirstRequest.

(** ** The further properties at sample inputs *)

Lemma X2_too_few_segments_witness :
  fromFlexibleValue id empty_os "~format" = Err (ErrInvalidFormat "~format")
  /\ fromFlexibleValue id empty_os "~base64~format"
     = Err (ErrInvalidFormat "~base64~format").
Proof. exact (X2_too_few_segments id empty_os "format" eq_refl). Defined.

Lemma X3_unknown_source_witness :
  fromFlexibleValue id empty_os "~invalid~format" = Err (ErrUnknownSource "invalid").
Proof.
  apply (X3_unknown_source id empty_os "invalid" "format");
    (reflexivity || discriminate).
Defined.

Lemma X4_resolver_errors_witness :
  resolver_error "~base64~direct~aa`" (CorruptInputError 2)
  /\ CorruptInputError 2 <> PanicIndexOutOfRange.
Proof.
  exact (X4_resolver_errors id empty_os "~base64~direct~aa`" (CorruptInputError 2)
           eq_refl).
Defined.

Lemma X6_queryEncode_bytes_witness :
  count_char ":" (queryEncode "client:id" false) = O.
Proof.
  apply (proj1 (X6_queryEncode_bytes "client:id")); (reflexivity || discriminate).
Defined.

Lemma X7_basic_credentials_decode_witness :
  exists c b64,
    New id empty_os (config_with "http://as.example/token" "client:id" "se:cret"
                       0 false) "test" = Ok c
    /\ authGrantHeaders c !! "Authorization" = Some ("Basic " ++ b64)
    /\ base64.DecodeString base64.StdEncoding b64 = Ok "client%3Aid:se%3Acret"
    /\ strings.Index "client%3Aid:se%3Acret" ":" = Some 11%nat.
Proof.
  destruct (New id empty_os
              (config_with "http://as.example/token" "client:id" "se:cret" 0 false)
              "test") as [c|e] eqn:HN; [|vm_compute in HN; discriminate].
  destruct (X7_basic_credentials_decode id empty_os _ "test" c "client:id" "se:cret"
              HN eq_refl ltac:(discriminate) eq_refl) as (b64 & H1 & H2 & H3).
  exists c, b64. split; [reflexivity|]. split; [exact H1|]. split; [exact H2|].
  exact (proj1 (H3 eq_refl)).
Defined.

Lemma X8_last_header_wins_witness :
  exists c,
    New id empty_os config_two_headers "test" = Ok c
    /\ authGrantHeaders c !! "X-Info" = Some "second"
    /\ authGrantHeaders c !! "Authorization" = Some "Bearer preset".
Proof.
  destruct (New id empty_os config_two_headers "test") as [c|e] eqn:HN;
    [|vm_compute in HN; discriminate].
  exists c. split; [reflexivity|]. split.
  - apply (X8_last_header_wins id empty_os config_two_headers "test" c
             [ {| Name := "X-Info"; Value := "first" |};
               {| Name := "Authorization"; Value := "Bearer preset" |} ]
             {| Name := "X-Info"; Value := "second" |} []);
      try reflexivity; [exact HN|constructor|left; discriminate].
  - apply (X8_last_header_wins id empty_os config_two_headers "test" c
             [ {| Name := "X-Info"; Value := "first" |} ]
             {| Name := "Authorization"; Value := "Bearer preset" |}
             [ {| Name := "X-Info"; Value := "second" |} ]);
      try reflexivity; [exact HN|repeat constructor; discriminate|right; reflexivity].
Defined.

Lemma X9_missing_url_witness :
  New id empty_os (config_with "" "client" "secret" 0 false) "test"
  = Err ErrMissingURL.
Proof.
  apply (proj1 (X9_missing_url id empty_os
                  (config_with "" "client" "secret" 0 false) "test" "client"
                  (List.Forall_nil _) eq_refl (fun _ => eq_refl) eq_refl)).
Defined.

Lemma X10_New_errors_witness :
  let config := config_with "http://as.example/token" "client" "~env~OAUTH_PASS"
                  0 false in
  let e := ErrField "pass" "~env~OAUTH_PASS" (ErrEnvNotFound "OAUTH_PASS") in
  New id empty_os config "test" = Err e
  /\ (e = ErrMissingURL
      \/ exists fieldName fieldValue cause,
           e = ErrField fieldName fieldValue cause
           /\ config_field config fieldName fieldValue
           /\ fromFlexibleValue id empty_os fieldValue = Err cause).
Proof.
  intros config e. split; [reflexivity|].
  exact (X10_New_errors id empty_os config "test" e eq_refl).
Defined.

Lemma X12_local_failures_witness :
  let run := ServeHTTP (unmarshal_sample "" ∅) (parse_sample "" (S754_zero false))
               indefinite_amd64 (plugin_sample 0) (world_no_request now_sample)
               request_sample in
  answers_500 (plugin_sample 0) (fst run) (snd run) "new-request: invalid URL"
  /\ grants (snd run) = O.
Proof.
  intros run.
  exact (proj1 (X12_local_failures (unmarshal_sample "" ∅)
                  (parse_sample "" (S754_zero false)) indefinite_amd64
                  (plugin_sample 0) (world_no_request now_sample) request_sample
                  eq_refl) "invalid URL" eq_refl).
Defined.

Lemma X13_only_authorization_changes_witness :
  let body := body_token_expiry "3600" in
  let responseData : gmap string JSON :=
    {[ "access_token" := JString "t0"; "expires_in" := JNumber float_3600 ]} in
  let '(c', evs) :=
    ServeHTTP (unmarshal_sample body responseData)
      (parse_sample "" (S754_zero false)) indefinite_amd64 (plugin_sample 0)
      (world_sample now_sample {| http.StatusCode := 200; http.Body := body |})
      request_sample in
  exists r,
    forwarded evs = [r]
    /\ http.Method r = "GET"
    /\ http.RequestURI r = "/data"
    /\ http.Body_of r = ""
    /\ http.Header_of r !! "Authorization" = Some ["Bearer " ++ token (st c')]
    /\ forall k, k <> "Authorization" ->
                 http.Header_of r !! k = http.Header_of request_sample !! k.
Proof.
  intros body responseData.
  pose proof (X13_only_authorization_changes
                (unmarshal_sample body responseData)
                (parse_sample "" (S754_zero false)) indefinite_amd64
                (plugin_sample 0)
                (world_sample now_sample
                   {| http.StatusCode := 200; http.Body := body |})
                request_sample) as H.
  destruct (ServeHTTP _ _ _ _ _ _) as [c' evs] eqn:E.
  assert (F : forwarded evs = [set_authorization request_sample "Bearer t0"]).
  { vm_compute in E. injection E as <- <-. reflexivity. }
  exists (set_authorization request_sample "Bearer t0").
  split; [exact F|]. apply H. rewrite F. left. reflexivity.
Defined.

Lemma X14_numeric_string_as_number_witness :
  let body1 := body_token_expiry (dq ++ "3600" ++ dq) in
  let body2 := body_token_expiry "3600" in
  let responseData : gmap string JSON := {[ "access_token" := JString "t0" ]} in
  let U := unmarshal_two body1 (<["expires_in" := JString "3600"]> responseData)
             body2 (<["expires_in" := JNumber float_3600]> responseData) in
  let P := parse_sample "3600" float_3600 in
  let run1 := ServeHTTP U P indefinite_amd64 (plugin_sample 0)
                (world_sample now_sample
                   {| http.StatusCode := 200; http.Body := body1 |})
                request_sample in
  let run2 := ServeHTTP U P indefinite_amd64 (plugin_sample 0)
                (world_sample now_sample
                   {| http.StatusCode := 200; http.Body := body2 |})
                request_sample in
  fst run1 = fst run2
  /\ forwarded (snd run1) = forwarded (snd run2)
  /\ statuses (snd run1) = statuses (snd run2)
  /\ bodies (snd run1) = bodies (snd run2).
Proof.
  intros body1 body2 responseData U P.
  apply (X14_numeric_string_as_number U P indefinite_amd64 (plugin_sample 0)
           _ _ request_sample body1 body2 responseData "3600" float_3600);
    reflexivity.
Defined.

Lemma X15_output_streams_witness :
  let body := body_token_expiry "3600" in
  let responseData : gmap string JSON :=
    {[ "access_token" := JString "t0"; "expires_in" := JNumber float_3600 ]} in
  let '(c', evs) :=
    ServeHTTP (unmarshal_sample body responseData)
      (parse_sample "" (S754_zero false)) indefinite_amd64 (plugin_sample 0)
      (world_sample now_sample {| http.StatusCode := 200; http.Body := body |})
      request_sample in
  stdout evs = [].
Proof.
  intros body responseData.
  pose proof (X15_output_streams
                (unmarshal_sample body responseData)
                (parse_sample "" (S754_zero false)) indefinite_amd64
                (plugin_sample 0)
                (world_sample now_sample
                   {| http.StatusCode := 200; http.Body := body |})
                request_sample) as H.
  destruct (ServeHTTP _ _ _ _ _ _) as [c' evs].
  exact (proj1 H eq_refl eq_refl).
Defined.

Lemma X16_failed_grant_is_retried_witness :
  let body := body_token_expiry "3600" in
  let responseData : gmap string JSON :=
    {[ "access_token" := JString "t0"; "expires_in" := JNumber float_3600 ]} in
  let U := unmarshal_sample body responseData in
  let P := parse_sample "" (S754_zero false) in
  let run1 := ServeHTTP U P indefinite_amd64 (plugin_sample 0)
                (world_no_request now_sample) request_sample in
  let w2 := world_sample (now_sample + 5 * Second)
              {| http.StatusCode := 200; http.Body := body |} in
  fst run1 = plugin_sample 0
  /\ grants (snd (ServeHTTP U P indefinite_amd64 (fst run1) w2 request_sample))
     = 1%nat.
Proof.
  intros body responseData U P run1 w2.
  apply (X16_failed_grant_is_retried U P indefinite_amd64 (plugin_sample 0)
           (fst run1) (world_no_request now_sample) w2 request_sample
           request_sample (snd run1)).
  - reflexivity.
  - apply surjective_pairing.
  - reflexivity.
  - vm_compute. discriminate.
  - reflexivity.
Defined.

Lemma X17_forwarded_token_was_granted_witness :
  let body := body_token_expiry "3600" in
  let responseData : gmap string JSON :=
    {[ "access_token" := JString "t0"; "expires_in" := JNumber float_3600 ]} in
  let U := unmarshal_sample body responseData in
  let w := world_sample now_sample
             {| http.StatusCode := 200; http.Body := body |} in
  let run := ServeHTTP U (parse_sample "" (S754_zero false)) indefinite_amd64
               (plugin_sample 0) w request_sample in
  token (st (fst run)) = "t0"
  /\ exists agRes data,
       NewRequest w (authGrantUrl (plugin_sample 0)) = None
       /\ Do w (grant_request (plugin_sample 0)) = inr agRes
       /\ http.StatusCode agRes = 200
       /\ U (http.Body agRes) = inr data
       /\ data !! "access_token" = Some (JString (token (st (fst run))))
       /\ forwarded (snd run)
          = [set_authorization request_sample
               ("Bearer " ++ token (st (fst run)))]
       /\ grants (snd run) = 1%nat.
Proof.
  intros body responseData U w run. split; [reflexivity|].
  apply (X17_forwarded_token_was_granted U (parse_sample "" (S754_zero false))
           indefinite_amd64 (plugin_sample 0) (fst run) w request_sample
           (snd run)).
  - reflexivity.
  - apply surjective_pairing.
  - vm_compute. discriminate.
Defined.


Lemma X20_unparseable_expires_in_witness :
  let body := body_token_expiry (dq ++ "soon" ++ dq) in
  let responseData : gmap string JSON :=
    {[ "access_token" := JString "t0"; "expires_in" := JString "soon" ]} in
  let run := ServeHTTP (unmarshal_sample body responseData)
               (parse_sample "3600" float_3600) indefinite_amd64
               (plugin_sample 0)
               (world_sample now_sample
                  {| http.StatusCode := 200; http.Body := body |})
               request_sample in
  answers_500 (plugin_sample 0) (fst run) (snd run)
    "expires_in not found or not parseable"
  /\ grants (snd run) = 1%nat.
Proof.
  intros body responseData run.
  apply (X20_unparseable_expires_in (unmarshal_sample body responseData)
           (parse_sample "3600" float_3600) indefinite_amd64 (plugin_sample 0)
           _ request_sample body responseData "t0" "soon" "invalid syntax"
           (S754_zero false)); reflexivity.
Defined.
